(** * TaskFlow: the task repository and its authorization gate

    A shallow embedding of [server/storage.ts] (class [MemStorage], the
    instance exported as [storage]), of the zod schemas of
    [shared/schema.ts] and of the task routes of [server/routes.ts],
    followed by the properties of the task repository.

    Conventions of the embedding.
    - A JavaScript number that holds an integer (a task id, a user id, the
      millisecond value of a [Date]) is a [Z]; this is exact while the
      magnitude stays inside the safe-integer range (below 2^53).
    - A [Date] is its [getTime()] value.  Every [new Date()] of the source
      is an explicit clock reading passed to the operation that takes it.
    - A JavaScript string is a [string] whose characters are its code
      units (those below 256); [String.length] is its [.length].
    - [undefined]/[null] in an optional position is [None].
    - An [async] method is the function from the state before the call to
      its result and the state after it. *)

From Stdlib Require Import ZArith List String Ascii Bool Lia.
From Stdlib Require Import Permutation Sorted.
Import ListNotations.

#[local] Open Scope string_scope.
#[local] Open Scope Z_scope.

(* ================================================================== *)
(** ** The JavaScript runtime pieces the code relies on *)

Module JS.

(** *** [Map<number, V>]: keys in insertion order, no key twice. *)
Section MapModel.
Context {V : Type}.

Definition Map := list (Z * V).

Definition empty : Map := [].

Fixpoint get (k : Z) (m : Map) : option V :=
  match m with
  | [] => None
  | (k', v) :: m' => if k =? k' then Some v else get k m'
  end.

Definition has (k : Z) (m : Map) : bool :=
  match get k m with Some _ => true | None => false end.

(** [m.set(k, v)]: an existing key keeps its position, a new key goes
    to the end. *)
Fixpoint set (k : Z) (v : V) (m : Map) : Map :=
  match m with
  | [] => [(k, v)]
  | (k', v') :: m' =>
      if k =? k' then (k, v) :: m' else (k', v') :: set k v m'
  end.

(** [m.delete(k)]: the map without the entry of [k]; the boolean
    result of the call is [has k m]. *)
Definition delete (k : Z) (m : Map) : Map :=
  filter (fun e => negb (k =? fst e)) m.

Definition keys (m : Map) : list Z := map fst m.

(** [Array.from(m.values())] *)
Definition values (m : Map) : list V := map snd m.

End MapModel.
Arguments Map : clear implicits.

(** *** [Array.prototype.sort(cmp)]: stable; [cmp a b < 0] puts [a]
    first.  Insertion from the right keeps equal elements in their
    original order, which is what a stable sort returns. *)
Section Sort.
Context {A : Type} (cmp : A -> A -> Z).

Fixpoint insert (x : A) (l : list A) : list A :=
  match l with
  | [] => [x]
  | y :: l' => if cmp x y <=? 0 then x :: l else y :: insert x l'
  end.

Definition sort (l : list A) : list A := fold_right insert [] l.
End Sort.

(** *** Truthiness of a string-or-null value: [null] and the empty
    string are falsy. *)
Definition truthy_string (s : option string) : bool :=
  match s with
  | None => false
  | Some s => negb (s =? EmptyString)%string
  end.

(** [s || null] *)
Definition or_null (s : option string) : option string :=
  if truthy_string s then s else None.

(** Truthiness of a number-or-undefined value: [undefined] and [0] are
    falsy. *)
Definition truthy_number (n : option Z) : bool :=
  match n with
  | None => false
  | Some n => negb (n =? 0)
  end.

(** *** [parseInt(s)] with no radix argument (ECMA-262, 19.2.5).
    [None] is [NaN]. *)

Definition code (c : ascii) : Z := Z.of_nat (nat_of_ascii c).

(** White space and line terminators among the code units below 256. *)
Definition is_white_space (c : ascii) : bool :=
  let n := code c in
  ((9 <=? n) && (n <=? 13)) || (n =? 32) || (n =? 160).

Fixpoint trim_start (s : string) : string :=
  match s with
  | String c s' => if is_white_space c then trim_start s' else s
  | EmptyString => s
  end.

Definition digit_value (R : Z) (c : ascii) : option Z :=
  let n := code c in
  let v := if (48 <=? n) && (n <=? 57) then Some (n - 48)
           else if (97 <=? n) && (n <=? 122) then Some (n - 87)
           else if (65 <=? n) && (n <=? 90) then Some (n - 55)
           else None in
  match v with
  | Some d => if d <? R then Some d else None
  | None => None
  end.

(** The value of the longest prefix of radix-[R] digits; [acc] is the
    value read so far, [None] while no digit has been read. *)
Fixpoint parse_digits (R : Z) (s : string) (acc : option Z) : option Z :=
  match s with
  | String c s' =>
      match digit_value R c with
      | Some d =>
          parse_digits R s'
            (Some (match acc with Some a => a * R + d | None => d end))
      | None => acc
      end
  | EmptyString => acc
  end.

(** The sign, and the string without a leading ["-"] or ["+"]. *)
Definition strip_sign (s : string) : Z * string :=
  match s with
  | String c s' =>
      if (c =? "-")%char then (-1, s')
      else if (c =? "+")%char then (1, s')
      else (1, s)
  | EmptyString => (1, s)
  end.

(** The radix, and the string without a leading ["0x"] or ["0X"]. *)
Definition strip_hex_prefix (s : string) : Z * string :=
  match s with
  | String c0 (String c1 s') =>
      if (c0 =? "0")%char && ((c1 =? "x")%char || (c1 =? "X")%char)
      then (16, s')
      else (10, s)
  | _ => (10, s)
  end.

Definition parseInt (input : string) : option Z :=
  let (sign, s1) := strip_sign (trim_start input) in
  let (R, s2) := strip_hex_prefix s1 in
  match parse_digits R s2 None with
  | Some mathInt => Some (sign * mathInt)
  | None => None
  end.

End JS.

(* ================================================================== *)
(** ** [shared/schema.ts]: the task record and the zod schemas *)

Module Schema.

Inductive Priority := low | medium | high.

(** [Task]: a row of the [tasks] table, with the owner column the
    storage layer adds. *)
Record Task := mkTask {
  id : Z;
  title : string;
  description : option string;
  priority : Priority;
  dueDate : option string;
  completed : bool;
  userId : Z;
  createdAt : Z;
  updatedAt : Z
}.

(** [InsertTask]: what [createTask] reads from [taskData].  The fields
    the code guards with [||] may be missing. *)
Record InsertTask := mkInsertTask {
  ins_title : string;
  ins_description : option string;
  ins_priority : option Priority;
  ins_dueDate : option string;
  ins_completed : option bool
}.

(** [Partial<UpdateTask>]: every key may be absent; a present key holds
    a value of the field's type.  [UpdateTask] has the key [id]. *)
Record UpdateTask := mkUpdateTask {
  upd_title : option string;
  upd_description : option string;
  upd_priority : option Priority;
  upd_dueDate : option string;
  upd_completed : option bool;
  upd_id : option Z
}.

(** A JSON value in a field of a request body, as far as the schemas
    tell values apart. *)
Inductive JValue :=
| JNull
| JBool (b : bool)
| JNumber (n : Z)
| JString (s : string)
| JOther.

(** The keys of a request body the handlers can be sent: the five the
    schemas name, and [id] and [userId], which they do not.  [None] is
    an absent key. *)
Record Body := mkBody {
  b_title : option JValue;
  b_description : option JValue;
  b_priority : option JValue;
  b_dueDate : option JValue;
  b_completed : option JValue;
  b_id : option JValue;
  b_userId : option JValue
}.

(** The result of parsing one key: the parsed value or an issue. *)
Inductive Parsed (A : Type) :=
| Ok (a : A)
| Issue.
Arguments Ok {A} a.
Arguments Issue {A}.

(** [z.string().min(1, ...).max(200, ...)] *)
Definition z_title (v : option JValue) : Parsed string :=
  match v with
  | Some (JString s) =>
      if (1 <=? length s)%nat && (length s <=? 200)%nat then Ok s else Issue
  | _ => Issue
  end.

(** [z.string().optional()] *)
Definition z_string_optional (v : option JValue) : Parsed (option string) :=
  match v with
  | None => Ok None
  | Some (JString s) => Ok (Some s)
  | Some _ => Issue
  end.

(** [z.enum(["low", "medium", "high"])] *)
Definition z_priority (v : JValue) : Parsed Priority :=
  match v with
  | JString s =>
      if (s =? "low")%string then Ok low
      else if (s =? "medium")%string then Ok medium
      else if (s =? "high")%string then Ok high
      else Issue
  | _ => Issue
  end.

(** [z.boolean()] *)
Definition z_boolean (v : JValue) : Parsed bool :=
  match v with
  | JBool b => Ok b
  | _ => Issue
  end.

(** [schema.default(d)]: an absent key parses to [d]. *)
Definition z_default {A} (p : JValue -> Parsed A) (d : A)
  (v : option JValue) : Parsed A :=
  match v with
  | None => Ok d
  | Some v => p v
  end.

(** [schema.optional()], which [.partial()] puts around every key: an
    absent key stays absent (a default inside is not applied). *)
Definition z_optional {A} (p : option JValue -> Parsed A)
  (v : option JValue) : Parsed (option A) :=
  match v with
  | None => Ok None
  | Some _ => match p v with Ok a => Ok (Some a) | Issue => Issue end
  end.

Definition flatten {A} (p : Parsed (option (option A))) : Parsed (option A) :=
  match p with
  | Ok (Some o) => Ok o
  | Ok None => Ok None
  | Issue => Issue
  end.

(** [insertTaskSchema.parse(req.body)].  [inl] is the thrown
    [ZodError], with the paths of the keys that have an issue; a body
    that is not an object is an issue at the empty path.  Keys outside
    the schema are stripped. *)
Definition issue_at {A} (path : string) (p : Parsed A) : list string :=
  match p with Ok _ => [] | Issue => [path] end.

Definition insertTaskSchema_parse (body : option Body)
  : list string + InsertTask :=
  match body with
  | None => inl [EmptyString]
  | Some b =>
      let t := z_title (b_title b) in
      let d := z_string_optional (b_description b) in
      let p := z_default z_priority medium (b_priority b) in
      let u := z_string_optional (b_dueDate b) in
      let c := z_default z_boolean false (b_completed b) in
      match t, d, p, u, c with
      | Ok t, Ok d, Ok p, Ok u, Ok c =>
          inr (mkInsertTask t d (Some p) u (Some c))
      | _, _, _, _, _ =>
          inl (issue_at "title" t ++ issue_at "description" d
               ++ issue_at "priority" p ++ issue_at "dueDate" u
               ++ issue_at "completed" c)%list
      end
  end.

(** [updateTaskSchema.omit({ id: true }).parse(req.body)], where
    [updateTaskSchema = insertTaskSchema.partial().extend({ id })]. *)
Definition updateTaskSchema_omit_id_parse (body : option Body)
  : list string + UpdateTask :=
  match body with
  | None => inl [EmptyString]
  | Some b =>
      let t := z_optional z_title (b_title b) in
      let d := flatten (z_optional z_string_optional (b_description b)) in
      let p := z_optional (z_default z_priority medium) (b_priority b) in
      let u := flatten (z_optional z_string_optional (b_dueDate b)) in
      let c := z_optional (z_default z_boolean false) (b_completed b) in
      match t, d, p, u, c with
      | Ok t, Ok d, Ok p, Ok u, Ok c =>
          inr (mkUpdateTask t d p u c None)
      | _, _, _, _, _ =>
          inl (issue_at "title" t ++ issue_at "description" d
               ++ issue_at "priority" p ++ issue_at "dueDate" u
               ++ issue_at "completed" c)%list
      end
  end.

End Schema.

(* ================================================================== *)
(** ** [server/storage.ts]: class [MemStorage], task methods *)

Module Stats.
(** The object [getTaskStats] returns. *)
Record t := mk {
  total : Z;
  completed : Z;
  pending : Z;
  overdue : Z
}.
End Stats.

Module Storage.
Import Schema.

(** The private fields of [MemStorage] the task methods use. *)
Record MemStorage := mkMemStorage {
  tasks : JS.Map Task;
  nextTaskId : Z
}.

(** [new MemStorage()] *)
Definition init : MemStorage :=
  {| tasks := JS.empty; nextTaskId := 1 |}.

Definition len {A} (l : list A) : Z := Z.of_nat (List.length l).

Definition getTasks (st : MemStorage) (uid : Z) : list Task :=
  let userTasks :=
    filter (fun task => userId task =? uid) (JS.values (tasks st)) in
  JS.sort (fun a b => createdAt b - createdAt a) userTasks.

Definition getTask (st : MemStorage) (i uid : Z) : option Task :=
  match JS.get i (tasks st) with
  | Some task => if userId task =? uid then Some task else None
  | None => None
  end.

(** [createTask(taskData)] with [taskData.userId = uid]; [now1] and
    [now2] are the two [new Date()] readings, in source order. *)
Definition createTask (st : MemStorage) (now1 now2 : Z)
  (taskData : InsertTask) (uid : Z) : Task * MemStorage :=
  let task :=
    {| id := nextTaskId st;
       title := ins_title taskData;
       description := JS.or_null (ins_description taskData);
       priority := match ins_priority taskData with
                   | Some p => p
                   | None => medium
                   end;
       dueDate := JS.or_null (ins_dueDate taskData);
       completed := match ins_completed taskData with
                    | Some c => c || false
                    | None => false
                    end;
       userId := uid;
       createdAt := now1;
       updatedAt := now2 |} in
  (task,
   {| tasks := JS.set (id task) task (tasks st);
      nextTaskId := nextTaskId st + 1 |}).

(** [{ ...task, ...updates, updatedAt: new Date() }]: a key present in
    [updates] replaces the task's. *)
Definition spread (task : Task) (updates : UpdateTask) (now : Z) : Task :=
  {| id := match upd_id updates with Some i => i | None => id task end;
     title := match upd_title updates with
              | Some s => s
              | None => title task
              end;
     description := match upd_description updates with
                    | Some s => Some s
                    | None => description task
                    end;
     priority := match upd_priority updates with
                 | Some p => p
                 | None => priority task
                 end;
     dueDate := match upd_dueDate updates with
                | Some s => Some s
                | None => dueDate task
                end;
     completed := match upd_completed updates with
                  | Some c => c
                  | None => completed task
                  end;
     userId := userId task;
     createdAt := createdAt task;
     updatedAt := now |}.

Definition updateTask (st : MemStorage) (now : Z) (i uid : Z)
  (updates : UpdateTask) : option Task * MemStorage :=
  match getTask st i uid with
  | None => (None, st)
  | Some task =>
      let updatedTask := spread task updates now in
      (Some updatedTask,
       {| tasks := JS.set i updatedTask (tasks st);
          nextTaskId := nextTaskId st |})
  end.

Definition deleteTask (st : MemStorage) (i uid : Z) : bool * MemStorage :=
  match getTask st i uid with
  | None => (false, st)
  | Some _ =>
      (JS.has i (tasks st),
       {| tasks := JS.delete i (tasks st);
          nextTaskId := nextTaskId st |})
  end.

Section WithDateParse.
(** [new Date(s).getTime()] for a string [s]; [None] is an invalid
    date.  The parser belongs to the runtime. *)
Variable Date_parse : string -> option Z.

(** [!t.completed && t.dueDate && new Date(t.dueDate) < now] *)
Definition is_overdue (now : Z) (t : Task) : bool :=
  negb (completed t)
  && JS.truthy_string (dueDate t)
  && match dueDate t with
     | Some s => match Date_parse s with
                 | Some d => d <? now
                 | None => false
                 end
     | None => false
     end.

(** [now] is the reading of [new Date()] in the method. *)
Definition getTaskStats (st : MemStorage) (now : Z) (uid : Z) : Stats.t :=
  let userTasks := getTasks st uid in
  {| Stats.total := len userTasks;
     Stats.completed := len (filter (fun t => completed t) userTasks);
     Stats.pending := len (filter (fun t => negb (completed t)) userTasks);
     Stats.overdue := len (filter (is_overdue now) userTasks) |}.
End WithDateParse.

End Storage.

(* ================================================================== *)
(** ** [server/storage.ts]: class [DatabaseStorage], the task queries

    The table is the list of its rows; a [where] is a filter,
    [orderBy(tasks.createdAt)] sorts ascending. *)

Module Database.
Import Schema.

Definition Table := list Task.

Definition getTasks (rows : Table) (uid : Z) : list Task :=
  JS.sort (fun a b => createdAt a - createdAt b)
    (filter (fun task => userId task =? uid) rows).

Definition getTask (rows : Table) (i uid : Z) : option Task :=
  match filter (fun task => (id task =? i) && (userId task =? uid)) rows with
  | task :: _ => Some task
  | [] => None
  end.

Definition deleteTask (rows : Table) (i uid : Z) : bool * Table :=
  let matching task := (id task =? i) && (userId task =? uid) in
  let rowCount := Storage.len (filter matching rows) in
  (0 <? rowCount, filter (fun task => negb (matching task)) rows).

End Database.

(* ================================================================== *)
(** ** [server/routes.ts]: [requireAuth] and the task routes *)

Module Routes.
Import Schema.

(** [req.session]; [s_userId] is the key the login route sets. *)
Record Session := mkSession {
  s_userId : option Z
}.

Record Request := mkRequest {
  session : option Session;
  params_id : string;
  body : option Body
}.

(** What the handler sends: [res.json(...)] or [res.send()]. *)
Inductive Payload :=
| Message (message : string)
| ValidationFailed (errors : list string)
| OneTask (task : Task)
| TaskList (l : list Task)
| TaskStats (stats : Stats.t)
| Empty.

Record Response := mkResponse {
  status : Z;
  payload : Payload
}.

(** A call of a [storage] method, as the handler makes it. *)
Inductive Call :=
| call_getTasks (uid : Z)
| call_getTaskStats (uid : Z)
| call_getTask (i uid : Z)
| call_createTask (taskData : InsertTask) (uid : Z)
| call_updateTask (i uid : Z) (updates : UpdateTask)
| call_deleteTask (i uid : Z).

(** The result of serving one request: the response, the store after
    it, and the [storage] calls made on the way.  The task methods of
    [MemStorage] do not throw, so of the [catch] blocks only the
    [ZodError] branch (the [inl] of a parse) is ever taken. *)
Record Outcome := mkOutcome {
  response : Response;
  storage : Storage.MemStorage;
  calls : list Call
}.

Inductive Endpoint :=
| GET_tasks          (* GET    /api/tasks       *)
| GET_tasks_stats    (* GET    /api/tasks/stats *)
| GET_task           (* GET    /api/tasks/:id   *)
| POST_task          (* POST   /api/tasks       *)
| PATCH_task         (* PATCH  /api/tasks/:id   *)
| DELETE_task.       (* DELETE /api/tasks/:id   *)

(** [req.session?.userId] *)
Definition session_userId (req : Request) : option Z :=
  match session req with
  | Some s => s_userId s
  | None => None
  end.

(** [requireAuth]: [next] is the rest of the route, which reads
    [req.session.userId]. *)
Definition requireAuth (req : Request) (st : Storage.MemStorage)
  (next : Z -> Outcome) : Outcome :=
  let unauthorized :=
    mkOutcome (mkResponse 401 (Message "Unauthorized")) st [] in
  match session_userId req with
  | Some uid => if JS.truthy_number (Some uid) then next uid else unauthorized
  | None => unauthorized
  end.

Section Handlers.
Variable Date_parse : string -> option Z.
(** The clock readings a request can take, in order. *)
Variables now1 now2 : Z.
Variable st : Storage.MemStorage.
Variable req : Request.
(** [req.session.userId], past [requireAuth]. *)
Variable uid : Z.

Definition get_tasks : Outcome :=
  let tasks := Storage.getTasks st uid in
  mkOutcome (mkResponse 200 (TaskList tasks)) st [call_getTasks uid].

Definition get_tasks_stats : Outcome :=
  let stats := Storage.getTaskStats Date_parse st now1 uid in
  mkOutcome (mkResponse 200 (TaskStats stats)) st [call_getTaskStats uid].

(** In the three routes with an id, the [None] branch is the
    [isNaN(id)] one. *)
Definition get_task : Outcome :=
  match JS.parseInt (params_id req) with
  | None => mkOutcome (mkResponse 400 (Message "Invalid task ID")) st []
  | Some i =>
      match Storage.getTask st i uid with
      | None =>
          mkOutcome (mkResponse 404 (Message "Task not found")) st
            [call_getTask i uid]
      | Some task =>
          mkOutcome (mkResponse 200 (OneTask task)) st
            [call_getTask i uid]
      end
  end.

Definition post_task : Outcome :=
  match insertTaskSchema_parse (body req) with
  | inl errors =>
      mkOutcome (mkResponse 400 (ValidationFailed errors)) st []
  | inr validatedData =>
      let (task, st') :=
        Storage.createTask st now1 now2 validatedData uid in
      mkOutcome (mkResponse 201 (OneTask task)) st'
        [call_createTask validatedData uid]
  end.

Definition patch_task : Outcome :=
  match JS.parseInt (params_id req) with
  | None => mkOutcome (mkResponse 400 (Message "Invalid task ID")) st []
  | Some i =>
      match updateTaskSchema_omit_id_parse (body req) with
      | inl errors =>
          mkOutcome (mkResponse 400 (ValidationFailed errors)) st []
      | inr validatedData =>
          match Storage.updateTask st now1 i uid validatedData with
          | (None, st') =>
              mkOutcome (mkResponse 404 (Message "Task not found")) st'
                [call_updateTask i uid validatedData]
          | (Some task, st') =>
              mkOutcome (mkResponse 200 (OneTask task)) st'
                [call_updateTask i uid validatedData]
          end
      end
  end.

Definition delete_task : Outcome :=
  match JS.parseInt (params_id req) with
  | None => mkOutcome (mkResponse 400 (Message "Invalid task ID")) st []
  | Some i =>
      match Storage.deleteTask st i uid with
      | (false, st') =>
          mkOutcome (mkResponse 404 (Message "Task not found")) st'
            [call_deleteTask i uid]
      | (true, st') =>
          mkOutcome (mkResponse 204 Empty) st' [call_deleteTask i uid]
      end
  end.

Definition route (ep : Endpoint) : Outcome :=
  match ep with
  | GET_tasks => get_tasks
  | GET_tasks_stats => get_tasks_stats
  | GET_task => get_task
  | POST_task => post_task
  | PATCH_task => patch_task
  | DELETE_task => delete_task
  end.
End Handlers.

(** A task endpoint as registered: [requireAuth], then the handler. *)
Definition handle (Date_parse : string -> option Z) (ep : Endpoint)
  (now1 now2 : Z) (st : Storage.MemStorage) (req : Request) : Outcome :=
  requireAuth req st (fun uid => route Date_parse now1 now2 st req uid ep).

(** One request as the server sees it: the endpoint, the clock
    readings it takes and the request. *)
Record Event := mkEvent {
  ev_endpoint : Endpoint;
  ev_now1 : Z;
  ev_now2 : Z;
  ev_request : Request
}.

Definition serve (Date_parse : string -> option Z)
  (st : Storage.MemStorage) (ev : Event) : Outcome :=
  handle Date_parse (ev_endpoint ev) (ev_now1 ev) (ev_now2 ev) st
    (ev_request ev).

(** The store after a sequence of requests. *)
Definition run (Date_parse : string -> option Z)
  (st : Storage.MemStorage) (evs : list Event) : Storage.MemStorage :=
  fold_left (fun st ev => storage (serve Date_parse st ev)) evs st.

(** The ids of the tasks the requests created (the 201 responses), in
    the order of creation. *)
Definition created_id (out : Outcome) : list Z :=
  if status (response out) =? 201 then
    match payload (response out) with
    | OneTask task => [id task]
    | _ => []
    end
  else [].

Fixpoint assigned_ids (Date_parse : string -> option Z)
  (st : Storage.MemStorage) (evs : list Event) : list Z :=
  match evs with
  | [] => []
  | ev :: evs' =>
      let out := serve Date_parse st ev in
      (created_id out ++ assigned_ids Date_parse (storage out) evs')%list
  end.

End Routes.

(* ================================================================== *)
(** ** The contract: the notions the properties are stated with *)

Module Contract.
Import Schema Storage Routes.

(** The tasks of the store that [uid] owns, in the order of the map. *)
Definition owned (st : MemStorage) (uid : Z) : list Task :=
  filter (fun task => userId task =? uid) (JS.values (tasks st)).

(** The two orders a task list can be in. *)
Definition ascending (l : list Task) : Prop :=
  StronglySorted (fun a b => createdAt a <= createdAt b) l.

Definition descending (l : list Task) : Prop :=
  StronglySorted (fun a b => createdAt b <= createdAt a) l.

(** What a partial update does to one field: a provided value replaces
    the old one, an omitted key leaves the old one. *)
Definition updated_field {A} (provided : option A) (old new : A) : Prop :=
  (forall v, provided = Some v -> new = v) /\ (provided = None -> new = old).

(** The overdue test in the words of the contract: not completed, has
    a due date, and the parsed date is strictly before [now]. *)
Definition overdue_by_contract (Date_parse : string -> option Z)
  (now : Z) (t : Task) : bool :=
  negb (completed t)
  && match dueDate t with
     | Some s => match Date_parse s with
                 | Some d => d <? now
                 | None => false
                 end
     | None => false
     end.

(** A request whose session carries [uid]. *)
Definition authenticated (uid : Z) (pid : string) (b : option Body)
  : Request :=
  mkRequest (Some (mkSession (Some uid))) pid b.

(** The request with the [userId] key of its payload set to [v]. *)
Definition with_payload_userId (v : option JValue) (req : Request)
  : Request :=
  mkRequest (session req) (params_id req)
    (option_map
       (fun b => mkBody (b_title b) (b_description b) (b_priority b)
                   (b_dueDate b) (b_completed b) (b_id b) v)
       (body req)).

Definition priority_name (p : Priority) : string :=
  match p with
  | low => "low"
  | medium => "medium"
  | high => "high"
  end.

(** The JSON payload of a typed create input: every provided field
    has a value of its type. *)
Definition body_of (d : InsertTask) : Body :=
  mkBody (Some (JString (ins_title d)))
    (option_map JString (ins_description d))
    (option_map (fun p => JString (priority_name p)) (ins_priority d))
    (option_map JString (ins_dueDate d))
    (option_map JBool (ins_completed d))
    None None.

(** "Between 1 and 200 characters". *)
Definition title_in_range (s : string) : bool :=
  (1 <=? length s)%nat && (length s <=? 200)%nat.

(** The title of a raw payload is one the schema accepts. *)
Definition title_accepted (b : option Body) : bool :=
  match b with
  | Some b => match z_title (b_title b) with Ok _ => true | Issue => false end
  | None => false
  end.

Definition starts_with_digit (R : Z) (s : string) : bool :=
  match s with
  | String c _ => match JS.digit_value R c with
                  | Some _ => true
                  | None => false
                  end
  | EmptyString => false
  end.

(** The string, after leading white space, an optional sign and an
    optional hexadecimal prefix, begins with a digit. *)
Definition has_leading_integer (s : string) : bool :=
  let (_, s1) := JS.strip_sign (JS.trim_start s) in
  let (R, s2) := JS.strip_hex_prefix s1 in
  starts_with_digit R s2.

Definition is_decimal_digit (c : ascii) : bool :=
  (48 <=? JS.code c) && (JS.code c <=? 57).

Fixpoint all_decimal_digits (s : string) : bool :=
  match s with
  | String c s' => is_decimal_digit c && all_decimal_digits s'
  | EmptyString => true
  end.

(** A numeric string: one or more decimal digits. *)
Definition numeric_string (s : string) : bool :=
  match s with
  | String _ _ => all_decimal_digits s
  | EmptyString => false
  end.

Definition takes_id (ep : Endpoint) : bool :=
  match ep with
  | GET_task | PATCH_task | DELETE_task => true
  | GET_tasks | GET_tasks_stats | POST_task => false
  end.

(** The [id] fields of the stored tasks, in the order of the map. *)
Definition stored_ids (st : MemStorage) : list Z :=
  map id (JS.values (tasks st)).

(** The store invariant: no key twice, every task is stored under its
    own id, and every id in use is below the counter. *)
Definition ids_consistent (st : MemStorage) : Prop :=
  NoDup (JS.keys (tasks st))
  /\ Forall (fun e => id (snd e) = fst e /\ fst e < nextTaskId st) (tasks st).

End Contract.

(* ================================================================== *)
(** ** Sample stores and requests *)

Module Samples.
Import Schema Storage Routes Contract.

(** A store with two tasks of user 1, the first created at 1000 ms and
    the second at 2000 ms. *)
Definition two_tasks : MemStorage :=
  let taskData := mkInsertTask "first" None None None None in
  let st1 := snd (createTask init 1000 1000 taskData 1) in
  snd (createTask st1 2000 2000 (mkInsertTask "second" None None None None) 1).

(** A store whose only task was created at 1000 ms, and the update
    that marks it completed. *)
Definition one_task : MemStorage :=
  snd (createTask init 1000 1000 (mkInsertTask "t" None None None None) 1).

Definition mark_completed : UpdateTask :=
  mkUpdateTask None None None None (Some true) None.

(** The [params.id] of a route without an id. *)
Definition no_param : string := EmptyString.

(** A parser for due dates written as a count of milliseconds. *)
Definition ms_Date_parse (s : string) : option Z :=
  JS.parse_digits 10 s None.

Definition buy_milk : InsertTask :=
  mkInsertTask "Buy milk" None (Some high) None None.

(** The same input without a priority, and an input with an empty
    title. *)
Definition plain_milk : InsertTask :=
  mkInsertTask "Buy milk" None None None None.

Definition untitled : InsertTask :=
  mkInsertTask EmptyString None None None None.

(** A task due at 500 ms, not completed, seen at 1000 ms. *)
Definition overdue_store : MemStorage :=
  snd (createTask init 0 0
         (mkInsertTask "late" None None (Some "500") None) 1).

(** A create request of user 1 whose payload names user 99. *)
Definition spoofing_request : Request :=
  authenticated 1 no_param
    (Some (mkBody (Some (JString "Buy milk")) None None None None None
             (Some (JNumber 99)))).

End Samples.

(* ================================================================== *)
(** ** [server/storage.ts]: class [MemStorage], user methods

    The user methods read and write only [users] and [nextUserId], the
    task methods only [tasks] and [nextTaskId]; the two halves of the
    object are modelled as two stores. *)

Module Users.

(** [User], with the fields [createUser] fills in. *)
Record User := mkUser {
  id : Z;
  username : string;
  email : string;
  password : string;
  firstName : option string;
  lastName : option string;
  createdAt : Z;
  updatedAt : Z
}.

(** [InsertUser]: what [createUser] reads from [userData]. *)
Record InsertUser := mkInsertUser {
  new_username : string;
  new_email : string;
  new_password : string;
  new_firstName : option string;
  new_lastName : option string
}.

Record UserStore := mkUserStore {
  users : JS.Map User;
  nextUserId : Z
}.

(** The user half of [new MemStorage()]. *)
Definition init : UserStore :=
  {| users := JS.empty; nextUserId := 1 |}.

Definition getUser (st : UserStore) (i : Z) : option User :=
  JS.get i (users st).

(** [users.find(user => user.username === username)]: the first match
    in the order of the map. *)
Definition getUserByUsername (st : UserStore) (name : string)
  : option User :=
  find (fun user => (username user =? name)%string) (JS.values (users st)).

Definition getUserByEmail (st : UserStore) (mail : string) : option User :=
  find (fun user => (email user =? mail)%string) (JS.values (users st)).

Section WithBcrypt.
(** [bcrypt.hash(password, rounds)] draws a salt; the salt is an
    explicit argument.  [bcrypt.compare(password, hash)]. *)
Variable bcrypt_hash : string -> string -> Z -> string.
Variable bcrypt_compare : string -> string -> bool.

(** [now1] and [now2] are the two [new Date()] readings. *)
Definition createUser (st : UserStore) (salt : string) (now1 now2 : Z)
  (userData : InsertUser) : User * UserStore :=
  let hashedPassword := bcrypt_hash salt (new_password userData) 10 in
  let user :=
    {| id := nextUserId st;
       username := new_username userData;
       email := new_email userData;
       password := hashedPassword;
       firstName := JS.or_null (new_firstName userData);
       lastName := JS.or_null (new_lastName userData);
       createdAt := now1;
       updatedAt := now2 |} in
  (user,
   {| users := JS.set (id user) user (users st);
      nextUserId := nextUserId st + 1 |}).

Definition validateUser (st : UserStore) (name pass : string)
  : option User :=
  match getUserByUsername st name with
  | None => None
  | Some user => if bcrypt_compare pass (password user) then Some user else None
  end.
End WithBcrypt.

End Users.

(* ================================================================== *)
(** ** [server/routes.ts]: the authentication routes

    [signupUserSchema] and [loginUserSchema] are not in
    [shared/schema.ts] as given; their [parse] is a parameter, from the
    request body to the issues or the validated data the route reads.
    The user methods of [MemStorage] do not throw, so of the [catch]
    blocks only the [ZodError] branch is taken.  The logout route, which
    only calls the session store, is left out. *)

Module Auth.
Import Users.

Inductive Payload :=
| Message (message : string)
| ValidationFailed (errors : list string)
| UserCreated (message : string) (userId : Z)
| LoginSuccessful (message : string) (i : Z) (name mail : string)
| CurrentUser (i : Z) (name mail : string) (first last : option string).

Record Response := mkResponse {
  status : Z;
  payload : Payload
}.

Section Handlers.
Context {Body : Type}.
Variable signupUserSchema_parse : Body -> list string + InsertUser.
Variable loginUserSchema_parse : Body -> list string + (string * string).
Variable bcrypt_hash : string -> string -> Z -> string.
Variable bcrypt_compare : string -> string -> bool.

(** [POST /api/auth/signup] *)
Definition signup (st : UserStore) (salt : string) (now1 now2 : Z)
  (body : Body) : Response * UserStore :=
  match signupUserSchema_parse body with
  | inl errors => (mkResponse 400 (ValidationFailed errors), st)
  | inr validatedData =>
      match getUserByUsername st (new_username validatedData) with
      | Some _ => (mkResponse 400 (Message "Username already exists"), st)
      | None =>
          match getUserByEmail st (new_email validatedData) with
          | Some _ => (mkResponse 400 (Message "Email already exists"), st)
          | None =>
              let (user, st') :=
                createUser bcrypt_hash st salt now1 now2 validatedData in
              (mkResponse 201
                 (UserCreated "User created successfully" (id user)),
               st')
          end
      end
  end.

(** [POST /api/auth/login]: the response and the session after the
    request; a successful login sets [req.session.userId]. *)
Definition login (st : UserStore) (session : Routes.Session) (body : Body)
  : Response * Routes.Session :=
  match loginUserSchema_parse body with
  | inl errors => (mkResponse 400 (ValidationFailed errors), session)
  | inr (name, pass) =>
      match validateUser bcrypt_compare st name pass with
      | None => (mkResponse 401 (Message "Invalid credentials"), session)
      | Some user =>
          (mkResponse 200
             (LoginSuccessful "Login successful" (id user) (username user)
                (email user)),
           Routes.mkSession (Some (id user)))
      end
  end.

(** [GET /api/auth/user], behind [requireAuth]. *)
Definition get_user (st : UserStore) (req : Routes.Request) : Response :=
  match Routes.session_userId req with
  | Some uid =>
      if JS.truthy_number (Some uid) then
        match getUser st uid with
        | None => mkResponse 404 (Message "User not found")
        | Some user =>
            mkResponse 200
              (CurrentUser (id user) (username user) (email user)
                 (firstName user) (lastName user))
        end
      else mkResponse 401 (Message "Unauthorized")
  | None => mkResponse 401 (Message "Unauthorized")
  end.

End Handlers.

End Auth.

(* ================================================================== *)
(** ** The client: the task list view and the display name

    [TaskList] (filter and sort of the fetched tasks) and
    [getDisplayName] of the home page.  A task's [createdAt] is the
    millisecond value the client reads back with
    [new Date(task.createdAt).getTime()]. *)

Module Client.
Import Schema.

Inductive FilterType := filter_all | filter_pending | filter_completed.
Inductive SortType := sort_date | sort_priority | sort_title.

(** [tasks?.filter(...) || []]; [None] is the list not fetched yet. *)
Definition filteredTasks (filter : FilterType) (tasks : option (list Task))
  : list Task :=
  match tasks with
  | Some l =>
      List.filter
        (fun task =>
           match filter with
           | filter_completed => completed task
           | filter_pending => negb (completed task)
           | filter_all => true
           end) l
  | None => []
  end.

Definition priorityOrder (p : Priority) : Z :=
  match p with
  | high => 3
  | medium => 2
  | low => 1
  end.

Section View.
(** [a.localeCompare(b)], which belongs to the runtime. *)
Variable localeCompare : string -> string -> Z.

Definition sortedTasks (sort : SortType) (filtered : list Task)
  : list Task :=
  JS.sort
    (fun a b =>
       match sort with
       | sort_priority =>
           priorityOrder (priority b) - priorityOrder (priority a)
       | sort_title => localeCompare (title a) (title b)
       | sort_date => createdAt b - createdAt a
       end) filtered.
End View.

(** The [user] of [useAuth], as far as [getDisplayName] reads it. *)
Record AuthUser := mkAuthUser {
  au_firstName : option string;
  au_lastName : option string;
  au_username : string
}.

(** [x && y] and [x || y] on strings read the truthy value or nothing:
    [JS.or_null s] is [s] when it is truthy. *)
Definition getDisplayName (user : option AuthUser) : string :=
  match user with
  | Some u =>
      match JS.or_null (au_firstName u), JS.or_null (au_lastName u) with
      | Some f, Some l => (f ++ " " ++ l)%string
      | Some f, None => f
      | None, _ =>
          match JS.or_null (Some (au_username u)) with
          | Some name => name
          | None => "User"
          end
      end
  | None => "User"
  end.

End Client.

(* ================================================================== *)
(** ** Further notions *)

Module Notions.
Import Schema Storage Routes.

(** The endpoints that only read. *)
Definition is_read (ep : Endpoint) : bool :=
  match ep with
  | GET_tasks | GET_tasks_stats | GET_task => true
  | POST_task | PATCH_task | DELETE_task => false
  end.

(** A task as the create and update routes let it into the store: a
    title of 1 to 200 characters and an owner that passes the gate. *)
Definition valid_task (t : Task) : Prop :=
  Contract.title_in_range (title t) = true /\ userId t <> 0.

(** A payload with none of the five keys of the task schemas. *)
Definition no_task_keys (b : Body) : Prop :=
  b_title b = None /\ b_description b = None /\ b_priority b = None
  /\ b_dueDate b = None /\ b_completed b = None.

(** [task] with [updatedAt] set to [now] and nothing else changed. *)
Definition touched (task : Task) (now : Z) : Task :=
  mkTask (id task) (title task) (description task) (priority task)
    (dueDate task) (completed task) (userId task) (createdAt task) now.

(** The tasks of a list created at the instant [c], in list order. *)
Definition created_at (c : Z) (l : list Task) : list Task :=
  filter (fun t => createdAt t =? c) l.

(** 1 for true, 0 for false. *)
Definition count (b : bool) : Z := if b then 1 else 0.

End Notions.

(* ================================================================== *)
(** ** What a user sees of a store *)

Module Views.
Import Schema Storage.

(** User [v] sees the same in [st'] as in [st]: the same tasks in the
    same order, and the same answer to every lookup. *)
Definition same_view (st st' : MemStorage) (v : Z) : Prop :=
  Contract.owned st' v = Contract.owned st v
  /\ forall i, getTask st' i v = getTask st i v.

End Views.

(* ================================================================== *)
(** ** Notions for the user store *)

Module UserNotions.
Import Users.

Definition usernames (st : UserStore) : list string :=
  map username (JS.values (users st)).

Definition emails (st : UserStore) : list string :=
  map email (JS.values (users st)).

(** The user store invariant: no key twice, every user stored under
    its own id, and every id in use at least 1 and below the counter. *)
Definition users_consistent (st : UserStore) : Prop :=
  NoDup (JS.keys (users st))
  /\ 1 <= nextUserId st
  /\ Forall (fun e => id (snd e) = fst e /\ 1 <= fst e < nextUserId st)
       (users st).


(** A stand-in for bcrypt in examples: the hash is the salt, a
    separator and the password; a password matches the hashes that end
    in the separator and the password. *)
Definition toy_hash (salt pass : string) (rounds : Z) : string :=
  (salt ++ "$" ++ pass)%string.

Fixpoint ends_with (suffix s : string) : bool :=
  (s =? suffix)%string
  || match s with
     | String _ s' => ends_with suffix s'
     | EmptyString => false
     end.

Definition toy_compare (pass hash : string) : bool :=
  ends_with ("$" ++ pass)%string hash.

(** Stand-ins for the two missing schemas in examples: the body is the
    validated data. *)
Definition toy_signup_parse (body : InsertUser) : list string + InsertUser :=
  inr body.

Definition toy_login_parse (body : string * string)
  : list string + (string * string) :=
  inr body.

Definition alice : InsertUser :=
  mkInsertUser "alice" "a@x.com" "pw1" None None.

(** The same name as [alice] with another address. *)
Definition alice_again : InsertUser :=
  mkInsertUser "alice" "other@x.com" "pw3" None None.

End UserNotions.

(* ================================================================== *)
(** ** The tasks a response carries *)

Module Carried.
Import Schema Routes.

Definition payload_tasks (p : Payload) : list Task :=
  match p with
  | OneTask task => [task]
  | TaskList l => l
  | Message _ | ValidationFailed _ | TaskStats _ | Empty => []
  end.

(** [g] applied to the task of id [i], and the other tasks as they
    are. *)
Definition replace_id (i : Z) (g : Task -> Task) (t : Task) : Task :=
  if id t =? i then g t else t.

End Carried.

(* ================================================================== *)
(** ** Further sample requests and stores *)

Module MoreSamples.
Import Schema Storage Routes Contract Samples Users UserNotions.

(** User 2 asks to delete task 1. *)
Definition bob_deletes_1 : Request :=
  authenticated 2 "1" None.

(** User 2 sends a new title for task 1. *)
Definition bob_renames_1 : Request :=
  authenticated 2 "1"
    (Some (mkBody (Some (JString "mine")) None None None None None None)).

(** User 1 sends a payload with no task key, only an [id]. *)
Definition only_id : Body :=
  mkBody None None None None None (Some (JNumber 7)) None.

Definition alice_patches_nothing : Request :=
  authenticated 1 "1" (Some only_id).

(** User 1 sends an empty title. *)
Definition empty_title : Body :=
  mkBody (Some (JString EmptyString)) None None None None None None.

Definition alice_patches_empty_title : Request :=
  authenticated 1 "1" (Some empty_title).

Definition alice_creates : Request :=
  authenticated 1 no_param (Some (body_of buy_milk)).

(** The user store after [alice] signed up. *)
Definition with_alice : UserStore :=
  snd (createUser toy_hash Users.init "salt" 5 5 alice).

(** The first task of [two_tasks]. *)
Definition first_task : Task :=
  fst (createTask Storage.init 1000 1000
         (mkInsertTask "first" None None None None) 1).

(** The task of [one_task]. *)
Definition the_task : Task :=
  fst (createTask Storage.init 1000 1000
         (mkInsertTask "t" None None None None) 1).

(** Rows of a table: two of user 1, one of user 2. *)
Definition sample_rows : list Task :=
  [mkTask 1 "a" None low None false 1 30 30;
   mkTask 2 "b" None high None true 2 20 20;
   mkTask 3 "c" None medium None false 1 10 10].

Definition someone : Client.AuthUser :=
  Client.mkAuthUser (Some "Ada") (Some "Lovelace") "ada".

End MoreSamples.

(* ================================================================== *)
(** * Properties *)

(** ** The [Map] model *)

Module MapFacts.
Import JS.

Section Facts.
Context {V : Type}.
Implicit Types (m : Map V) (k : Z) (v : V).

Lemma get_set_same k v m : get k (set k v m) = Some v.
Proof.
  induction m as [|[k' v'] m IH]; simpl.
  - now rewrite Z.eqb_refl.
  - destruct (k =? k') eqn:E; simpl; rewrite ?Z.eqb_refl, ?E; auto.
Qed.

Lemma get_set_other k k' v m :
  k <> k' -> get k' (set k v m) = get k' m.
Proof.
  intros Hne. induction m as [|[k0 v0] m IH]; simpl.
  - destruct (k' =? k) eqn:E; auto. apply Z.eqb_eq in E. congruence.
  - destruct (k =? k0) eqn:E; simpl.
    + apply Z.eqb_eq in E. subst k0.
      destruct (k' =? k) eqn:E'; auto.
      apply Z.eqb_eq in E'. congruence.
    + now rewrite IH.
Qed.

Lemma get_delete_same k m : get k (delete k m) = None.
Proof.
  induction m as [|[k' v'] m IH]; simpl; auto.
  destruct (k =? k') eqn:E; simpl; auto. now rewrite E.
Qed.

Lemma get_delete_other k k' m :
  k <> k' -> get k' (delete k m) = get k' m.
Proof.
  intros Hne. induction m as [|[k0 v0] m IH]; simpl; auto.
  destruct (k =? k0) eqn:E; simpl.
  - apply Z.eqb_eq in E. subst k0.
    destruct (k' =? k) eqn:E'; auto.
    apply Z.eqb_eq in E'. congruence.
  - now rewrite IH.
Qed.

Lemma get_In k v m : get k m = Some v -> In (k, v) m.
Proof.
  induction m as [|[k' v'] m IH]; simpl; try discriminate.
  destruct (k =? k') eqn:E; intros H.
  - apply Z.eqb_eq in E. left. congruence.
  - right. auto.
Qed.

Lemma get_None_keys k m : get k m = None <-> ~ In k (keys m).
Proof.
  induction m as [|[k' v'] m IH]; simpl.
  - tauto.
  - destruct (k =? k') eqn:E.
    + apply Z.eqb_eq in E. split; [discriminate | intros H; exfalso; auto].
    + apply Z.eqb_neq in E. rewrite IH. intuition congruence.
Qed.

Lemma In_get k v m : NoDup (keys m) -> In (k, v) m -> get k m = Some v.
Proof.
  induction m as [|[k' v'] m IH]; simpl; [tauto|].
  intros Hnd [Heq | Hin].
  - inversion Heq; subst. now rewrite Z.eqb_refl.
  - inversion Hnd as [|? ? Hnotin Hnd']; subst.
    destruct (k =? k') eqn:E; auto.
    apply Z.eqb_eq in E. subst k'.
    exfalso. apply Hnotin. apply (in_map fst) in Hin. exact Hin.
Qed.

(** A key that is not in the map goes to the end. *)
Lemma set_fresh k v m :
  ~ In k (keys m) -> set k v m = (m ++ [(k, v)])%list.
Proof.
  induction m as [|[k' v'] m IH]; simpl; auto.
  intros Hnotin. destruct (k =? k') eqn:E.
  - apply Z.eqb_eq in E. exfalso. auto.
  - rewrite IH; auto.
Qed.

(** A key that is in the map keeps its place. *)
Lemma keys_set_present k v m :
  In k (keys m) -> keys (set k v m) = keys m.
Proof.
  induction m as [|[k' v'] m IH]; simpl; [tauto|].
  intros Hin. destruct (k =? k') eqn:E; simpl.
  - apply Z.eqb_eq in E. now subst.
  - apply Z.eqb_neq in E. f_equal. apply IH.
    destruct Hin; congruence.
Qed.

Lemma Forall_set (P : Z * V -> Prop) k v m :
  Forall P m -> P (k, v) -> Forall P (set k v m).
Proof.
  intros Hm Hkv. induction Hm as [|[k' v'] m Hx Hm IH]; simpl.
  - constructor; auto.
  - destruct (k =? k'); constructor; auto.
Qed.

Lemma keys_delete k m :
  keys (delete k m) = filter (fun k' => negb (k =? k')) (keys m).
Proof.
  induction m as [|[k' v'] m IH]; simpl; auto.
  destruct (k =? k'); simpl; now rewrite <- IH.
Qed.

Lemma get_Some_keys k v m : get k m = Some v -> In k (keys m).
Proof.
  intros H. apply get_In in H. now apply (in_map fst) in H.
Qed.

(** The operations keep the representation free of repeated keys. *)
Lemma NoDup_keys_set k v m : NoDup (keys m) -> NoDup (keys (set k v m)).
Proof.
  intros Hnd. destruct (in_dec Z.eq_dec k (keys m)) as [Hin | Hnotin].
  - now rewrite keys_set_present.
  - rewrite set_fresh by assumption. unfold keys. rewrite map_app. simpl.
    apply NoDup_rev in Hnd. rewrite <- (rev_involutive (map fst m ++ [k])).
    apply NoDup_rev. rewrite rev_app_distr. simpl.
    constructor; auto. now rewrite <- in_rev.
Qed.

Lemma NoDup_keys_delete k m :
  NoDup (keys m) -> NoDup (keys (delete k m)).
Proof.
  intros Hnd. rewrite keys_delete. now apply NoDup_filter.
Qed.

End Facts.
End MapFacts.

(** ** The stable sort *)

Module SortFacts.
Import JS.

Section Perm.
Context {A : Type} (cmp : A -> A -> Z).

Lemma insert_perm x l : Permutation (insert cmp x l) (x :: l).
Proof.
  induction l as [|y l IH]; simpl; auto.
  destruct (cmp x y <=? 0); auto.
  rewrite IH. apply perm_swap.
Qed.

Lemma sort_perm l : Permutation (sort cmp l) l.
Proof.
  induction l as [|x l IH]; simpl; auto.
  rewrite insert_perm. now constructor.
Qed.
End Perm.

Section Ordered.
Context {A : Type} (cmp : A -> A -> Z).
Hypothesis cmp_total : forall a b, cmp a b <= 0 \/ cmp b a <= 0.
Hypothesis cmp_trans :
  forall a b c, cmp a b <= 0 -> cmp b c <= 0 -> cmp a c <= 0.

(** [a] may stand before [b] in the sorted array when [cmp a b <= 0]. *)
Lemma insert_sorted x l :
  StronglySorted (fun a b => cmp a b <= 0) l ->
  StronglySorted (fun a b => cmp a b <= 0) (insert cmp x l).
Proof.
  induction 1 as [|y l Hl IH Hy]; simpl.
  - repeat constructor.
  - destruct (cmp x y <=? 0) eqn:E.
    + apply Z.leb_le in E. constructor.
      * now constructor.
      * constructor; auto.
        eapply Forall_impl; [|exact Hy].
        intros z Hz. eapply cmp_trans; eauto.
    + apply Z.leb_gt in E. constructor; auto.
      eapply Permutation_Forall.
      * symmetry. apply insert_perm.
      * constructor; auto.
        destruct (cmp_total y x); [assumption | lia].
Qed.

Lemma sort_sorted l : StronglySorted (fun a b => cmp a b <= 0) (sort cmp l).
Proof.
  induction l as [|x l IH]; simpl.
  - constructor.
  - now apply insert_sorted.
Qed.
End Ordered.

Lemma StronglySorted_weaken {A} (R R' : A -> A -> Prop) (l : list A) :
  (forall a b, R a b -> R' a b) ->
  StronglySorted R l -> StronglySorted R' l.
Proof.
  intros HR. induction 1 as [|x l Hl IH Hx]; constructor; auto.
  eapply Forall_impl; [|exact Hx]. auto.
Qed.

Lemma filter_length_perm {A} (f : A -> bool) (l l' : list A) :
  Permutation l l' ->
  List.length (filter f l) = List.length (filter f l').
Proof.
  induction 1 as [|x l l' _ IH|x y l|l l' l'' _ IH1 _ IH2]; simpl; auto.
  - destruct (f x); simpl; auto.
  - destruct (f x), (f y); simpl; auto.
  - congruence.
Qed.

End SortFacts.

(** ** The task repository *)

Module StorageFacts.
Import Schema Storage Contract.

Lemma getTask_Some st i uid task :
  getTask st i uid = Some task <->
  JS.get i (tasks st) = Some task /\ userId task = uid.
Proof.
  unfold getTask. destruct (JS.get i (tasks st)) as [t|].
  - destruct (userId t =? uid) eqn:E.
    + apply Z.eqb_eq in E. split.
      * intros H; inversion H; subst; auto.
      * intros [H _]; exact H.
    + apply Z.eqb_neq in E. split; [discriminate|].
      intros [H Hu]. inversion H; subst. contradiction.
  - split; [discriminate | intros [H _]; discriminate].
Qed.

Lemma getTask_None st i uid :
  getTask st i uid = None <->
  JS.get i (tasks st) = None
  \/ exists task, JS.get i (tasks st) = Some task /\ userId task <> uid.
Proof.
  unfold getTask. destruct (JS.get i (tasks st)) as [t|].
  - destruct (userId t =? uid) eqn:E.
    + apply Z.eqb_eq in E. split; [discriminate|].
      intros [H | [t' [H Hne]]]; [discriminate|].
      inversion H; subst. contradiction.
    + apply Z.eqb_neq in E. split; auto.
      intros _. right. eauto.
  - split; auto.
Qed.

Lemma getTasks_perm st uid : Permutation (getTasks st uid) (owned st uid).
Proof. apply SortFacts.sort_perm. Qed.

Lemma getTasks_In st uid task :
  In task (getTasks st uid) <->
  In task (JS.values (tasks st)) /\ userId task = uid.
Proof.
  split.
  - intros H. apply (Permutation_in _ (getTasks_perm st uid)) in H.
    apply filter_In in H. now rewrite Z.eqb_eq in H.
  - intros [H Hu].
    apply (Permutation_in _ (Permutation_sym (getTasks_perm st uid))).
    apply filter_In. now rewrite Z.eqb_eq.
Qed.

(** [MemStorage.getTasks] returns the newest task first. *)
Lemma getTasks_descending st uid : descending (getTasks st uid).
Proof.
  unfold descending, getTasks.
  eapply SortFacts.StronglySorted_weaken.
  2: { apply (SortFacts.sort_sorted (fun a b => createdAt b - createdAt a)).
       - intros a b. lia.
       - intros a b c. lia. }
  simpl. intros a b. lia.
Qed.

(** [DatabaseStorage.getTasks] returns the oldest task first. *)
Lemma Database_getTasks_ascending rows uid :
  ascending (Database.getTasks rows uid).
Proof.
  unfold ascending, Database.getTasks.
  eapply SortFacts.StronglySorted_weaken.
  2: { apply (SortFacts.sort_sorted (fun a b => createdAt a - createdAt b)).
       - intros a b. lia.
       - intros a b c. lia. }
  simpl. intros a b. lia.
Qed.

End StorageFacts.

(* ================================================================== *)
(** * The task repository: ownership, listing, update, delete, statistics *)

Module Repository.
Import Schema Storage Contract Samples StorageFacts.

(** ** Lookup *)

(** C1.  A task created for [ownerId] is returned by
    [getTask(id, ownerId)] and by no [getTask(id, otherId)] with
    [otherId <> ownerId]; the same holds for every task in a store and
    its [userId].  A lookup of an id that is not in the store returns
    none, and it returns the same value as a lookup of a task that
    another user owns. *)
Theorem getTask_owner_only st now1 now2 taskData ownerId :
  let task := fst (createTask st now1 now2 taskData ownerId) in
  let st' := snd (createTask st now1 now2 taskData ownerId) in
  getTask st' (id task) ownerId = Some task
  /\ (forall otherId,
        otherId <> ownerId -> getTask st' (id task) otherId = None)
  /\ (forall s i t,
        JS.get i (tasks s) = Some t ->
        getTask s i (userId t) = Some t
        /\ forall otherId, otherId <> userId t -> getTask s i otherId = None)
  /\ (forall s i uid, JS.get i (tasks s) = None -> getTask s i uid = None)
  /\ (forall s1 s2 i uid t,
        JS.get i (tasks s1) = None ->
        JS.get i (tasks s2) = Some t -> userId t <> uid ->
        getTask s1 i uid = getTask s2 i uid).
Proof.
  assert (Hstored : forall s i t,
             JS.get i (tasks s) = Some t ->
             getTask s i (userId t) = Some t
             /\ forall otherId,
                 otherId <> userId t -> getTask s i otherId = None).
  { intros s i t Hget. split.
    - apply getTask_Some. auto.
    - intros otherId Hne. apply getTask_None. right.
      exists t. split; auto. }
  assert (Habsent : forall s i uid,
             JS.get i (tasks s) = None -> getTask s i uid = None).
  { intros s i uid Hget. apply getTask_None. now left. }
  simpl.
  pose proof (Hstored
    (snd (createTask st now1 now2 taskData ownerId))
    (nextTaskId st)
    (fst (createTask st now1 now2 taskData ownerId))
    (MapFacts.get_set_same _ _ _)) as [Hown Hother].
  split; [exact Hown|].
  split; [exact Hother|].
  split; [exact Hstored|].
  split; [exact Habsent|].
  intros s1 s2 i uid t H1 H2 Hne.
  {
    rewrite (Habsent s1 i uid H1). symmetry.
    apply getTask_None. right. eauto. }
Qed.

(** ** Listing *)

(** C3.  On the store [two_tasks], [MemStorage.getTasks(1)] returns
    the task created at 2000 ms before the task created at 1000 ms: the
    list holds the user's tasks, newest first, and is not in ascending
    order of creation time. *)
Theorem getTasks_newest_first :
  map createdAt (getTasks two_tasks 1) = [2000; 1000]
  /\ map title (getTasks two_tasks 1) = ["second"; "first"]
  /\ ~ ascending (getTasks two_tasks 1).
Proof.
  split; [reflexivity|]. split; [reflexivity|].
  intros H.
  assert (E : exists newer older,
             getTasks two_tasks 1 = [newer; older]
             /\ createdAt newer = 2000 /\ createdAt older = 1000).
  { do 2 eexists. split; [reflexivity|]. split; reflexivity. }
  destruct E as [newer [older [E [Hn Ho]]]].
  unfold ascending in H. rewrite E in H.
  inversion H as [|a l _ Hhd]; subst.
  inversion Hhd as [|b l' Hle _]; subst.
  lia.
Qed.

(** ** Delete *)

(** C8.  [deleteTask(id, userId)] returns true exactly when the store
    holds a task under [id] that [userId] owns; the task is then
    removed, so [getTask(id, userId)] returns none afterwards, and no
    other entry changes.  When it returns false the store is
    unchanged. *)
Theorem deleteTask_spec st i uid :
  let r := fst (deleteTask st i uid) in
  let st' := snd (deleteTask st i uid) in
  (r = true <->
     exists task, JS.get i (tasks st) = Some task /\ userId task = uid)
  /\ (r = true ->
        JS.get i (tasks st') = None
        /\ getTask st' i uid = None
        /\ (forall j, j <> i -> JS.get j (tasks st') = JS.get j (tasks st))
        /\ nextTaskId st' = nextTaskId st)
  /\ (r = false -> st' = st).
Proof.
  unfold deleteTask. destruct (getTask st i uid) as [task|] eqn:Hget; simpl.
  - apply getTask_Some in Hget. destruct Hget as [Hget Hu].
    unfold JS.has. rewrite Hget.
    repeat split; eauto; try discriminate.
    + apply MapFacts.get_delete_same.
    + apply getTask_None. left. apply MapFacts.get_delete_same.
    + intros j Hj. apply MapFacts.get_delete_other. congruence.
  - repeat split; try discriminate; try reflexivity.
    intros [task [H Hu]].
    assert (getTask st i uid = Some task) by (apply getTask_Some; auto).
    congruence.
Qed.

(** ** Update *)

Lemma updated_field_intro {A} (provided : option A) (old : A) :
  updated_field provided old
    (match provided with Some v => v | None => old end).
Proof.
  destruct provided; split; intros; congruence.
Qed.

(** An update in the millisecond of the creation leaves [updatedAt] at
    the value it had: it is not strictly later. *)
Lemma updateTask_same_millisecond :
  exists task task',
    getTask one_task 1 1 = Some task
    /\ fst (updateTask one_task 1000 1 1 mark_completed) = Some task'
    /\ completed task' = true
    /\ ~ (updatedAt task < updatedAt task').
Proof.
  do 2 eexists.
  split; [reflexivity|]. split; [reflexivity|]. split; [reflexivity|].
  simpl. lia.
Qed.

(** C5, amended.  For a task under [id] that [userId] owns,
    [updateTask(id, userId, updates)] stores and returns the task with
    every provided field replaced and every omitted field (and the
    owner and [createdAt]) as before; [updatedAt] becomes the clock
    reading of the update, which is not earlier than the old value
    when the clock has not gone back; no other entry of the store
    changes.  When the task is absent or owned by another user the
    result is none and the store is unchanged. *)
Theorem updateTask_partial st now i uid updates :
  (forall task,
      getTask st i uid = Some task ->
      exists task',
        updateTask st now i uid updates
        = (Some task',
           {| tasks := JS.set i task' (tasks st);
              nextTaskId := nextTaskId st |})
        /\ updated_field (upd_id updates) (id task) (id task')
        /\ updated_field (upd_title updates) (title task) (title task')
        /\ updated_field (option_map Some (upd_description updates))
             (description task) (description task')
        /\ updated_field (upd_priority updates)
             (priority task) (priority task')
        /\ updated_field (option_map Some (upd_dueDate updates))
             (dueDate task) (dueDate task')
        /\ updated_field (upd_completed updates)
             (completed task) (completed task')
        /\ userId task' = userId task
        /\ createdAt task' = createdAt task
        /\ updatedAt task' = now
        /\ (updatedAt task <= now -> updatedAt task <= updatedAt task')
        /\ getTask (snd (updateTask st now i uid updates)) i uid = Some task'
        /\ (forall j, j <> i ->
              JS.get j (tasks (snd (updateTask st now i uid updates)))
              = JS.get j (tasks st)))
  /\ (getTask st i uid = None ->
      updateTask st now i uid updates = (None, st)).
Proof.
  unfold updateTask. split.
  - intros task Hget. rewrite Hget. simpl.
    exists (spread task updates now).
    split; [reflexivity|].
    split; [apply updated_field_intro|].
    split; [apply updated_field_intro|].
    split; [unfold updated_field; simpl;
            destruct (upd_description updates); simpl; split; intros;
            congruence|].
    split; [apply updated_field_intro|].
    split; [unfold updated_field; simpl;
            destruct (upd_dueDate updates); simpl; split; intros;
            congruence|].
    split; [apply updated_field_intro|].
    split; [reflexivity|]. split; [reflexivity|]. split; [reflexivity|].
    split; [simpl; auto|].
    split.
    + apply getTask_Some. simpl. split.
      * apply MapFacts.get_set_same.
      * apply getTask_Some in Hget. tauto.
    + intros j Hj. simpl. apply MapFacts.get_set_other. congruence.
  - intros Hget. now rewrite Hget.
Qed.

(** ** Statistics *)

Lemma is_overdue_by_contract Date_parse now t :
  Date_parse EmptyString = None ->
  is_overdue Date_parse now t = overdue_by_contract Date_parse now t.
Proof.
  intros Hempty. unfold is_overdue, overdue_by_contract.
  destruct (completed t); simpl; auto.
  destruct (dueDate t) as [s|]; simpl; auto.
  destruct (String.eqb s EmptyString) eqn:E; simpl; auto.
  apply String.eqb_eq in E. subst s. now rewrite Hempty.
Qed.

Lemma filter_split_length {A} (f : A -> bool) (l : list A) :
  len (filter (fun x => negb (f x)) l) + len (filter f l) = len l.
Proof.
  unfold len.
  enough (List.length (filter (fun x => negb (f x)) l)
          + List.length (filter f l) = List.length l)%nat by lia.
  induction l as [|x l IH]; simpl; auto.
  destruct (f x); simpl; lia.
Qed.

Lemma filter_length_le {A} (f g : A -> bool) (l : list A) :
  (forall x, f x = true -> g x = true) ->
  len (filter f l) <= len (filter g l).
Proof.
  intros Hfg. unfold len.
  enough (List.length (filter f l) <= List.length (filter g l))%nat by lia.
  induction l as [|x l IH]; simpl; [lia|].
  destruct (f x) eqn:Ef.
  - rewrite (Hfg x Ef). simpl. lia.
  - destruct (g x); simpl; lia.
Qed.

Lemma len_filter_getTasks (f : Task -> bool) st uid :
  len (filter f (getTasks st uid)) = len (filter f (owned st uid)).
Proof.
  unfold len. f_equal.
  apply SortFacts.filter_length_perm, getTasks_perm.
Qed.

(** C4.  For every store (so for every reachable one), every clock
    reading [now] and every user, the statistics count the tasks the
    user owns at that moment: [total] all of them, [completed] and
    [pending] the completed and the not completed ones, so
    [pending + completed = total]; [overdue] counts exactly the tasks
    that are not completed, have a due date and whose parsed date is
    strictly before [now]; every overdue task is a pending one, so
    [overdue <= pending].  The empty string parses to an invalid date. *)
Theorem getTaskStats_spec (Date_parse : string -> option Z) st now uid :
  Date_parse EmptyString = None ->
  let stats := getTaskStats Date_parse st now uid in
  Stats.total stats = len (owned st uid)
  /\ Stats.completed stats = len (filter completed (owned st uid))
  /\ Stats.pending stats
     = len (filter (fun t => negb (completed t)) (owned st uid))
  /\ Stats.overdue stats
     = len (filter (overdue_by_contract Date_parse now) (owned st uid))
  /\ Stats.pending stats + Stats.completed stats = Stats.total stats
  /\ Stats.overdue stats <= Stats.pending stats
  /\ (forall t, overdue_by_contract Date_parse now t = true ->
                completed t = false).
Proof.
  intros Hempty. simpl.
  assert (Hsub : forall t, overdue_by_contract Date_parse now t = true ->
                           completed t = false).
  { intros t H. unfold overdue_by_contract in H.
    destruct (completed t); [discriminate | reflexivity]. }
  assert (Hov : len (filter (is_overdue Date_parse now) (getTasks st uid))
                = len (filter (overdue_by_contract Date_parse now)
                         (owned st uid))).
  { rewrite len_filter_getTasks. unfold len. do 2 f_equal.
    apply filter_ext. intros t. now apply is_overdue_by_contract. }
  split.
  { unfold len. f_equal. apply Permutation_length, getTasks_perm. }
  split; [apply len_filter_getTasks|].
  split; [apply len_filter_getTasks|].
  split; [exact Hov|].
  split; [apply filter_split_length|].
  split; [|exact Hsub].
  rewrite Hov, len_filter_getTasks.
  apply filter_length_le. intros t H. now rewrite (Hsub t H).
Qed.

End Repository.

(* ================================================================== *)
(** * The authorization gate and the task routes *)

Module Gate.
Import Schema Storage Routes Contract StorageFacts.

Lemma handle_authenticated Date_parse ep now1 now2 st req uid :
  session_userId req = Some uid -> uid <> 0 ->
  handle Date_parse ep now1 now2 st req
  = route Date_parse now1 now2 st req uid ep.
Proof.
  intros Hs Hu. unfold handle, requireAuth. rewrite Hs. simpl.
  apply Z.eqb_neq in Hu. now rewrite Hu.
Qed.

(** ** Unauthenticated requests *)

(** C2.  A request to any task endpoint whose session carries no
    [userId] is answered 401 "Unauthorized"; no [storage] method is
    called and the store is the one before the request. *)
Theorem requireAuth_rejects Date_parse ep now1 now2 st req :
  session_userId req = None ->
  handle Date_parse ep now1 now2 st req
  = mkOutcome (mkResponse 401 (Message "Unauthorized")) st [].
Proof.
  intros Hs. unfold handle, requireAuth. now rewrite Hs.
Qed.

(** A [userId] of 0 is falsy and is rejected in the same way. *)
Lemma requireAuth_rejects_zero Date_parse ep now1 now2 st req :
  session_userId req = Some 0 ->
  handle Date_parse ep now1 now2 st req
  = mkOutcome (mkResponse 401 (Message "Unauthorized")) st [].
Proof.
  intros Hs. unfold handle, requireAuth. now rewrite Hs.
Qed.

(** ** Not found

    The three routes with an id answer a task that is absent and a task
    of another user with the same 404. *)
Lemma not_found_uniform Date_parse now1 now2 st req uid i :
  session_userId req = Some uid -> uid <> 0 ->
  JS.parseInt (params_id req) = Some i ->
  getTask st i uid = None ->
  handle Date_parse GET_task now1 now2 st req
  = mkOutcome (mkResponse 404 (Message "Task not found")) st
      [call_getTask i uid]
  /\ handle Date_parse DELETE_task now1 now2 st req
     = mkOutcome (mkResponse 404 (Message "Task not found")) st
         [call_deleteTask i uid]
  /\ (forall updates,
        updateTaskSchema_omit_id_parse (body req) = inr updates ->
        handle Date_parse PATCH_task now1 now2 st req
        = mkOutcome (mkResponse 404 (Message "Task not found")) st
            [call_updateTask i uid updates]).
Proof.
  intros Hs Hu Hid Hnone.
  rewrite !(handle_authenticated _ _ _ _ _ _ uid) by auto.
  unfold route, get_task, delete_task, patch_task, deleteTask, updateTask.
  rewrite Hid, Hnone. split; [reflexivity|]. split; [reflexivity|].
  intros updates ->. reflexivity.
Qed.

(** ** Create: the owner *)

Lemma get_set_inv {V} (k i : Z) (v t : V) (m : JS.Map V) :
  JS.get i (JS.set k v m) = Some t ->
  (i = k /\ t = v) \/ JS.get i m = Some t.
Proof.
  destruct (Z.eq_dec k i) as [-> | Hne].
  - rewrite MapFacts.get_set_same. intros H. left. split; congruence.
  - rewrite MapFacts.get_set_other by assumption. auto.
Qed.

(** C6.  The outcome of a create request does not depend on a
    [userId] in its payload; the owner of the task it creates is the
    [userId] of the session; and every task in the store after the
    request was there before it or is owned by the session's user. *)
Theorem create_owner_from_session Date_parse now1 now2 st req :
  let out := handle Date_parse POST_task now1 now2 st req in
  (forall v,
      handle Date_parse POST_task now1 now2 st (with_payload_userId v req)
      = out)
  /\ (forall task,
        payload (response out) = OneTask task ->
        session_userId req = Some (userId task)
        /\ JS.get (id task) (tasks (storage out)) = Some task)
  /\ (forall i task,
        JS.get i (tasks (storage out)) = Some task ->
        JS.get i (tasks st) = Some task
        \/ session_userId req = Some (userId task)).
Proof.
  simpl. split; [|split].
  - intros v. unfold handle, requireAuth.
    change (session_userId (with_payload_userId v req))
      with (session_userId req).
    destruct (session_userId req) as [uid|]; auto.
    destruct (JS.truthy_number (Some uid)); auto.
    simpl. unfold post_task. simpl.
    destruct (body req) as [b|]; reflexivity.
  - intros task. unfold handle, requireAuth.
    destruct (session_userId req) as [uid|]; [|discriminate].
    destruct (JS.truthy_number (Some uid)); [|discriminate].
    simpl. unfold post_task.
    destruct (insertTaskSchema_parse (body req)) as [errors|d];
      [discriminate|].
    simpl. intros H. inversion H; subst. simpl. split; auto.
    apply MapFacts.get_set_same.
  - intros i task. unfold handle, requireAuth.
    destruct (session_userId req) as [uid|]; auto.
    destruct (JS.truthy_number (Some uid)); auto.
    simpl. unfold post_task.
    destruct (insertTaskSchema_parse (body req)) as [errors|d]; auto.
    simpl. intros H. apply get_set_inv in H.
    destruct H as [[_ ->] | H]; auto.
Qed.

(** ** Create: validation and defaults *)

Lemma parse_rejects_title b :
  title_accepted b = false ->
  exists errors, insertTaskSchema_parse b = inl errors.
Proof.
  unfold title_accepted, insertTaskSchema_parse.
  destruct b as [b|]; [|eauto].
  destruct (z_title (b_title b)); [discriminate|]. eauto.
Qed.

Lemma parse_body_of d :
  title_in_range (ins_title d) = true ->
  insertTaskSchema_parse (Some (body_of d))
  = inr (mkInsertTask (ins_title d) (ins_description d)
           (Some (match ins_priority d with Some p => p | None => medium end))
           (ins_dueDate d)
           (Some (match ins_completed d with Some c => c | None => false end))).
Proof.
  unfold title_in_range, insertTaskSchema_parse, body_of. simpl.
  intros ->.
  destruct (ins_description d), (ins_priority d) as [[]|], (ins_dueDate d),
    (ins_completed d); reflexivity.
Qed.

(** C7.  For an authenticated create request: when the payload's
    title is missing, is not a string, is empty or is longer than 200
    characters, the answer is 400 with the validation issues, no
    [storage] method is called and the store is unchanged; when the
    input is typed and its title has 1 to 200 characters, the answer
    is 201 with the created task, which is stored under the next id,
    has the given title and the session's user as owner, priority
    "medium" unless one is given, [completed] false unless it is
    given, and [createdAt] and [updatedAt] set to the two clock
    readings of the creation. *)
Theorem create_validates_title Date_parse now1 now2 st uid pid :
  uid <> 0 ->
  (forall b,
      title_accepted b = false ->
      let out :=
        handle Date_parse POST_task now1 now2 st (authenticated uid pid b) in
      status (response out) = 400
      /\ (exists errors, payload (response out) = ValidationFailed errors)
      /\ storage out = st
      /\ calls out = [])
  /\ (forall d,
        let out :=
          handle Date_parse POST_task now1 now2 st
            (authenticated uid pid (Some (body_of d))) in
        if title_in_range (ins_title d) then
          exists task,
            response out = mkResponse 201 (OneTask task)
            /\ storage out
               = {| tasks := JS.set (nextTaskId st) task (tasks st);
                    nextTaskId := nextTaskId st + 1 |}
            /\ getTask (storage out) (id task) uid = Some task
            /\ id task = nextTaskId st
            /\ title task = ins_title d
            /\ userId task = uid
            /\ priority task
               = match ins_priority d with Some p => p | None => medium end
            /\ completed task
               = match ins_completed d with Some c => c | None => false end
            /\ createdAt task = now1
            /\ updatedAt task = now2
        else
          title_accepted (Some (body_of d)) = false
          /\ status (response out) = 400
          /\ storage out = st
          /\ calls out = []).
Proof.
  intros Hu.
  assert (Hbad : forall b,
             title_accepted b = false ->
             let out :=
               handle Date_parse POST_task now1 now2 st
                 (authenticated uid pid b) in
             status (response out) = 400
             /\ (exists errors,
                    payload (response out) = ValidationFailed errors)
             /\ storage out = st
             /\ calls out = []).
  { intros b Hb. simpl.
    rewrite (handle_authenticated _ _ _ _ _ _ uid) by auto.
    simpl. unfold post_task. simpl.
    destruct (parse_rejects_title b Hb) as [errors ->]. simpl. eauto. }
  split; [exact Hbad|].
  intros d. simpl.
  destruct (title_in_range (ins_title d)) eqn:Ht.
  - rewrite (handle_authenticated _ _ _ _ _ _ uid) by auto.
    unfold route, post_task, authenticated. cbn [body].
    rewrite (parse_body_of d Ht). simpl.
    eexists. split; [reflexivity|]. split; [reflexivity|]. simpl.
    split.
    { apply getTask_Some. simpl. split; [apply MapFacts.get_set_same | auto]. }
    repeat split.
    destruct (ins_completed d) as [[]|]; reflexivity.
  - assert (Hb : title_accepted (Some (body_of d)) = false).
    { unfold title_accepted, body_of, z_title. cbn [b_title].
      unfold title_in_range in Ht. now rewrite Ht. }
    destruct (Hbad _ Hb) as [H1 [_ [H3 H4]]]. auto.
Qed.

(** A payload with a good title and an ill-typed priority is rejected
    as well: the schema checks every key it names. *)
Lemma create_rejects_bad_priority :
  let b := mkBody (Some (JString "Buy milk")) None (Some (JString "urgent"))
             None None None None in
  let out :=
    handle (fun _ => None) POST_task 0 0 init
      (authenticated 1 Samples.no_param (Some b)) in
  response out = mkResponse 400 (ValidationFailed ["priority"])
  /\ storage out = init.
Proof. split; reflexivity. Qed.

End Gate.

(* ================================================================== *)
(** * The id path parameter *)

Module PathParam.
Import Schema Storage Routes Contract Samples Gate.

(** ** What [parseInt] rejects *)

Lemma parse_digits_started R s a : JS.parse_digits R s (Some a) <> None.
Proof.
  revert a. induction s as [|c s IH]; intros a; simpl.
  - discriminate.
  - destruct (JS.digit_value R c); [apply IH | discriminate].
Qed.

Lemma parse_digits_None R s :
  JS.parse_digits R s None = None <-> starts_with_digit R s = false.
Proof.
  destruct s as [|c s]; simpl.
  - tauto.
  - destruct (JS.digit_value R c) as [d|].
    + split; [|discriminate].
      intros H. now apply parse_digits_started in H.
    + tauto.
Qed.

Lemma parseInt_NaN_iff s :
  JS.parseInt s = None <-> has_leading_integer s = false.
Proof.
  unfold JS.parseInt, has_leading_integer.
  destruct (JS.strip_sign (JS.trim_start s)) as [sign s1].
  destruct (JS.strip_hex_prefix s1) as [R s2].
  rewrite <- parse_digits_None.
  destruct (JS.parse_digits R s2 None); split; congruence.
Qed.

(** ** Numeric strings *)

Lemma decimal_digit_value c :
  is_decimal_digit c = true -> JS.digit_value 10 c = Some (JS.code c - 48).
Proof.
  unfold is_decimal_digit, JS.digit_value. intros H. rewrite H.
  apply andb_true_iff in H. destruct H as [H1 H2].
  apply Z.leb_le in H1. apply Z.leb_le in H2.
  destruct (JS.code c - 48 <? 10) eqn:E; auto.
  apply Z.ltb_ge in E. lia.
Qed.

Lemma decimal_digit_not c (k : ascii) :
  is_decimal_digit k = false -> is_decimal_digit c = true ->
  (c =? k)%char = false.
Proof.
  intros Hk Hc. destruct (c =? k)%char eqn:E; auto.
  apply Ascii.eqb_eq in E. congruence.
Qed.

(** Every numeric string parses: a rejected id is never numeric. *)
Lemma numeric_string_has_integer s :
  numeric_string s = true -> has_leading_integer s = true.
Proof.
  destruct s as [|c s]; simpl; [discriminate|].
  intros H. apply andb_true_iff in H. destruct H as [Hc Hs].
  unfold has_leading_integer. simpl.
  assert (Hws : JS.is_white_space c = false).
  { unfold is_decimal_digit in Hc. unfold JS.is_white_space.
    apply andb_true_iff in Hc. destruct Hc as [H1 H2].
    apply Z.leb_le in H1. apply Z.leb_le in H2.
    destruct (JS.code c <=? 13) eqn:E1; [apply Z.leb_le in E1; lia|].
    destruct (JS.code c =? 32) eqn:E2; [apply Z.eqb_eq in E2; lia|].
    destruct (JS.code c =? 160) eqn:E3; [apply Z.eqb_eq in E3; lia|].
    now rewrite andb_false_r. }
  rewrite Hws. simpl.
  rewrite (decimal_digit_not c "-"), (decimal_digit_not c "+")
    by (auto; reflexivity).
  assert (Hfirst : starts_with_digit 10 (String c s) = true).
  { simpl. now rewrite (decimal_digit_value c Hc). }
  destruct s as [|c1 s]; simpl.
  - now rewrite (decimal_digit_value c Hc).
  - simpl in Hs. apply andb_true_iff in Hs. destruct Hs as [Hc1 _].
    rewrite (decimal_digit_not c1 "x"), (decimal_digit_not c1 "X")
      by (auto; reflexivity).
    rewrite andb_false_r. exact Hfirst.
Qed.

(** ** The routes with an id *)

(** The id "1abc" is not numeric; [GET /api/tasks/1abc] answers 200
    with task 1 after a [getTask] call, and [DELETE /api/tasks/1abc]
    answers 204 and removes task 1. *)
Lemma non_numeric_id_served :
  numeric_string "1abc" = false
  /\ (let out :=
        handle (fun _ => None) GET_task 0 0 Samples.one_task
          (authenticated 1 "1abc" None) in
      status (response out) = 200 /\ calls out = [call_getTask 1 1])
  /\ (let out :=
        handle (fun _ => None) DELETE_task 0 0 Samples.one_task
          (authenticated 1 "1abc" None) in
      status (response out) = 204
      /\ calls out = [call_deleteTask 1 1]
      /\ JS.get 1 (tasks (storage out)) = None).
Proof. repeat split. Qed.

(** C9, amended.  For an authenticated get, update or delete request
    whose id parameter has no leading integer (after leading white
    space, an optional sign and an optional hexadecimal prefix it does
    not begin with a digit), the answer is 400 "Invalid task ID", no
    [storage] method is called and the store is unchanged; such an id
    is never a numeric string. *)
Theorem unparsable_id_rejected Date_parse ep now1 now2 st req uid :
  takes_id ep = true ->
  session_userId req = Some uid -> uid <> 0 ->
  has_leading_integer (params_id req) = false ->
  handle Date_parse ep now1 now2 st req
  = mkOutcome (mkResponse 400 (Message "Invalid task ID")) st []
  /\ numeric_string (params_id req) = false.
Proof.
  intros Hep Hs Hu Hid. split.
  - rewrite (handle_authenticated _ _ _ _ _ _ uid) by auto.
    apply parseInt_NaN_iff in Hid.
    destruct ep; try discriminate; simpl;
      unfold get_task, patch_task, delete_task; now rewrite Hid.
  - destruct (numeric_string (params_id req)) eqn:E; auto.
    apply numeric_string_has_integer in E. congruence.
Qed.

End PathParam.

(* ================================================================== *)
(** * Task ids *)

Module Ids.
Import Schema Storage Routes Contract Samples StorageFacts.

Lemma init_consistent : ids_consistent init.
Proof. split; constructor. Qed.

Lemma stored_ids_keys st :
  ids_consistent st -> stored_ids st = JS.keys (tasks st).
Proof.
  intros [_ Hall]. unfold stored_ids, JS.values, JS.keys.
  rewrite map_map. apply map_ext_in.
  intros e He. rewrite Forall_forall in Hall. now apply Hall.
Qed.

Lemma stored_get st i task :
  ids_consistent st -> JS.get i (tasks st) = Some task ->
  id task = i /\ i < nextTaskId st.
Proof.
  intros [_ Hall] Hget. apply MapFacts.get_In in Hget.
  rewrite Forall_forall in Hall. now apply (Hall (i, task)).
Qed.

(** *** The three mutators keep the invariant *)

Lemma createTask_consistent st now1 now2 taskData uid :
  ids_consistent st ->
  ids_consistent (snd (createTask st now1 now2 taskData uid)).
Proof.
  intros [Hnd Hall]. split; simpl.
  - now apply MapFacts.NoDup_keys_set.
  - apply MapFacts.Forall_set; simpl; [|lia].
    eapply Forall_impl; [|exact Hall]. simpl. intros e [H1 H2]. lia.
Qed.

Lemma updateTask_consistent st now i uid updates :
  upd_id updates = None ->
  ids_consistent st ->
  ids_consistent (snd (updateTask st now i uid updates)).
Proof.
  intros Hid Hst. unfold updateTask.
  destruct (getTask st i uid) as [task|] eqn:Hget; simpl; auto.
  apply getTask_Some in Hget. destruct Hget as [Hget _].
  destruct (stored_get st i task Hst Hget) as [Hi Hlt].
  destruct Hst as [Hnd Hall]. split; simpl.
  - now apply MapFacts.NoDup_keys_set.
  - apply MapFacts.Forall_set; simpl; auto.
    rewrite Hid. auto.
Qed.

Lemma deleteTask_consistent st i uid :
  ids_consistent st -> ids_consistent (snd (deleteTask st i uid)).
Proof.
  intros Hst. unfold deleteTask.
  destruct (getTask st i uid) as [task|]; simpl; auto.
  destruct Hst as [Hnd Hall]. split; simpl.
  - now apply MapFacts.NoDup_keys_delete.
  - rewrite Forall_forall in *. intros e He.
    apply filter_In in He. now apply Hall.
Qed.

(** The update route never passes an [id] key to [updateTask]. *)
Lemma parsed_update_has_no_id b updates :
  updateTaskSchema_omit_id_parse b = inr updates -> upd_id updates = None.
Proof.
  unfold updateTaskSchema_omit_id_parse. destruct b as [b|]; [|discriminate].
  destruct (z_optional z_title (b_title b));
    destruct (flatten (z_optional z_string_optional (b_description b)));
    destruct (z_optional (z_default z_priority medium) (b_priority b));
    destruct (flatten (z_optional z_string_optional (b_dueDate b)));
    destruct (z_optional (z_default z_boolean false) (b_completed b));
    try discriminate.
  intros H. inversion H. reflexivity.
Qed.

(** *** One request *)

(** What a request does to the counter and to the stored ids: either
    it creates no task, the counter stays and no new id appears in the
    store, or it creates the task whose id is the old counter. *)
Lemma serve_step Date_parse st ev :
  ids_consistent st ->
  let out := serve Date_parse st ev in
  ids_consistent (storage out)
  /\ ((created_id out = [] /\ nextTaskId (storage out) = nextTaskId st
       /\ incl (stored_ids (storage out)) (stored_ids st))
      \/ (created_id out = [nextTaskId st]
          /\ nextTaskId (storage out) = nextTaskId st + 1
          /\ incl (stored_ids (storage out))
               (stored_ids st ++ [nextTaskId st])%list)).
Proof.
  intros Hst. unfold serve, handle, requireAuth.
  assert (Hsame : forall s c r,
             s <> 201 ->
             let out := mkOutcome (mkResponse s r) st c in
             ids_consistent (storage out)
             /\ ((created_id out = []
                  /\ nextTaskId (storage out) = nextTaskId st
                  /\ incl (stored_ids (storage out)) (stored_ids st))
                 \/ (created_id out = [nextTaskId st]
                     /\ nextTaskId (storage out) = nextTaskId st + 1
                     /\ incl (stored_ids (storage out))
                          (stored_ids st ++ [nextTaskId st])%list))).
  { intros s c r Hs. simpl. split; auto. left.
    split; [|split; [reflexivity | apply incl_refl]].
    unfold created_id. simpl.
    apply Z.eqb_neq in Hs. now rewrite Hs. }
  destruct (session_userId (ev_request ev)) as [uid|];
    [|apply Hsame; discriminate].
  destruct (JS.truthy_number (Some uid)); [|apply Hsame; discriminate].
  destruct (ev_endpoint ev); simpl.
  - apply Hsame; discriminate.
  - apply Hsame; discriminate.
  - unfold get_task.
    destruct (JS.parseInt (params_id (ev_request ev))) as [i|];
      [|apply Hsame; discriminate].
    destruct (getTask st i uid); apply Hsame; discriminate.
  - unfold post_task.
    destruct (insertTaskSchema_parse (body (ev_request ev))) as [errors|d];
      [apply Hsame; discriminate|].
    pose proof (createTask_consistent st (ev_now1 ev) (ev_now2 ev) d uid Hst)
      as Hc.
    simpl in *. split; [exact Hc|]. right.
    split; [reflexivity|]. split; [reflexivity|].
    destruct Hst as [Hnd Hall].
    assert (Hfresh : ~ In (nextTaskId st) (JS.keys (tasks st))).
    { intros Hin. unfold JS.keys in Hin. apply in_map_iff in Hin.
      destruct Hin as [e [He Hin]]. rewrite Forall_forall in Hall.
      destruct (Hall e Hin). lia. }
    unfold stored_ids. simpl.
    rewrite (MapFacts.set_fresh _ _ _ Hfresh).
    unfold JS.values. rewrite !map_app. simpl. apply incl_refl.
  - unfold patch_task.
    destruct (JS.parseInt (params_id (ev_request ev))) as [i|];
      [|apply Hsame; discriminate].
    destruct (updateTaskSchema_omit_id_parse (body (ev_request ev)))
      as [errors|u] eqn:Hparse; [apply Hsame; discriminate|].
    apply parsed_update_has_no_id in Hparse.
    pose proof (updateTask_consistent st (ev_now1 ev) i uid u Hparse Hst)
      as Hc.
    unfold updateTask in *.
    destruct (getTask st i uid) as [task|] eqn:Hget;
      [|apply Hsame; discriminate].
    simpl in *. split; [exact Hc|]. left.
    split; [reflexivity|]. split; [reflexivity|].
    apply getTask_Some in Hget. destruct Hget as [Hget _].
    rewrite (stored_ids_keys _ Hc), (stored_ids_keys _ Hst). simpl.
    rewrite MapFacts.keys_set_present; [apply incl_refl|].
    eapply MapFacts.get_Some_keys; eauto.
  - unfold delete_task.
    destruct (JS.parseInt (params_id (ev_request ev))) as [i|];
      [|apply Hsame; discriminate].
    pose proof (deleteTask_consistent st i uid Hst) as Hc.
    unfold deleteTask in *.
    destruct (getTask st i uid) as [task|] eqn:Hget;
      [|apply Hsame; discriminate].
    apply getTask_Some in Hget. destruct Hget as [Hget _].
    unfold JS.has. rewrite Hget. simpl in *.
    split; [exact Hc|]. left.
    split; [reflexivity|]. split; [reflexivity|].
    rewrite (stored_ids_keys _ Hc), (stored_ids_keys _ Hst). simpl.
    rewrite MapFacts.keys_delete. intros k Hk.
    apply filter_In in Hk. tauto.
Qed.

(** *** A sequence of requests *)

Lemma run_cons Date_parse st ev evs :
  run Date_parse st (ev :: evs)
  = run Date_parse (storage (serve Date_parse st ev)) evs.
Proof. reflexivity. Qed.

Lemma run_ids Date_parse evs :
  forall st,
    ids_consistent st ->
    ids_consistent (run Date_parse st evs)
    /\ nextTaskId st <= nextTaskId (run Date_parse st evs)
    /\ StronglySorted Z.lt (assigned_ids Date_parse st evs)
    /\ Forall (fun k => nextTaskId st <= k
                        /\ k < nextTaskId (run Date_parse st evs))
         (assigned_ids Date_parse st evs)
    /\ incl (stored_ids (run Date_parse st evs))
         (stored_ids st ++ assigned_ids Date_parse st evs)%list.
Proof.
  induction evs as [|ev evs IH]; intros st Hst.
  - cbn [run fold_left assigned_ids].
    split; [exact Hst|]. split; [lia|].
    split; [constructor|]. split; [constructor|].
    rewrite app_nil_r. apply incl_refl.
  - rewrite run_cons. cbn [assigned_ids].
    destruct (serve_step Date_parse st ev Hst) as [Hc Hcases].
    cbv zeta in Hc, Hcases.
    destruct (IH _ Hc) as [Hrun [Hle [Hsorted [Hrange Hincl]]]].
    destruct Hcases as [[Hnone [Hnext Hsub]] | [Hone [Hnext Hsub]]].
    + rewrite Hnone, Hnext in *. simpl.
      split; [exact Hrun|]. split; [exact Hle|].
      split; [exact Hsorted|]. split; [exact Hrange|].
      intros k Hk. apply Hincl in Hk. apply in_app_or in Hk.
      apply in_or_app. destruct Hk as [Hk | Hk]; auto.
    + rewrite Hone, Hnext in *. simpl.
      split; [exact Hrun|]. split; [lia|].
      split; [|split].
      * constructor; auto.
        eapply Forall_impl; [|exact Hrange]. simpl. intros k Hk. lia.
      * constructor; [lia|].
        eapply Forall_impl; [|exact Hrange]. simpl. intros k Hk. lia.
      * intros k Hk. apply Hincl in Hk. apply in_app_or in Hk.
        destruct Hk as [Hk | Hk].
        -- apply Hsub in Hk. apply in_app_or in Hk.
           apply in_or_app. destruct Hk as [Hk | Hk]; auto.
           right. destruct Hk as [Hk | []]. now left.
        -- apply in_or_app. right. now right.
Qed.

(** C10.  Starting from the empty store and for every sequence of
    requests: the ids given to the created tasks, in the order of
    creation, are strictly increasing, so each one is greater than
    every id assigned before it and none is assigned twice, whatever
    was deleted in between; all of them are at least 1 and below the
    counter; the stored tasks carry ids that were assigned, each task
    is stored under its own id, and no two stored tasks have the same
    id. *)
Theorem task_ids_fresh Date_parse evs :
  let st := run Date_parse init evs in
  let assigned := assigned_ids Date_parse init evs in
  StronglySorted Z.lt assigned
  /\ Forall (fun k => 1 <= k /\ k < nextTaskId st) assigned
  /\ incl (stored_ids st) assigned
  /\ NoDup (stored_ids st)
  /\ Forall (fun e => id (snd e) = fst e) (tasks st).
Proof.
  destruct (run_ids Date_parse evs init init_consistent)
    as [Hrun [_ [Hsorted [Hrange Hincl]]]].
  simpl. split; [exact Hsorted|]. split; [exact Hrange|].
  split; [exact Hincl|]. split.
  - rewrite (stored_ids_keys _ Hrun). apply Hrun.
  - destruct Hrun as [_ Hall].
    eapply Forall_impl; [|exact Hall]. simpl. tauto.
Qed.

(** Create two tasks, delete the second, create a third: it gets the
    id 3, not the freed id 2. *)
Example deleted_id_not_reused :
  let create :=
    mkEvent POST_task 0 0
      (Contract.authenticated 1 no_param
         (Some (mkBody (Some (JString "t")) None None None None None None)))
  in
  let delete := mkEvent DELETE_task 0 0 (Contract.authenticated 1 "2" None) in
  let evs := [create; create; delete; create] in
  assigned_ids (fun _ => None) init evs = [1; 2; 3]
  /\ stored_ids (run (fun _ => None) init evs) = [1; 3].
Proof. split; reflexivity. Qed.

(** [updateTask] called with an [id] key, which the update route never
    does, stores a task whose [id] is not its key. *)
Example updateTask_with_id_key :
  let st := snd (updateTask Samples.two_tasks 0 1 1
                   (mkUpdateTask None None None None None (Some 2))) in
  stored_ids st = [2; 2] /\ JS.keys (tasks st) = [1; 2].
Proof. split; reflexivity. Qed.

End Ids.

(* ================================================================== *)
(** * The database-backed repository: the same ownership rule *)

Module DatabaseFacts.
Import Schema.

Lemma Database_getTask_owner rows i uid task :
  Database.getTask rows i uid = Some task ->
  In task rows /\ id task = i /\ userId task = uid.
Proof.
  unfold Database.getTask.
  destruct (filter _ rows) as [|t l] eqn:E; [discriminate|].
  intros H. inversion H; subst.
  assert (Hin : In task (filter
                  (fun task => (id task =? i) && (userId task =? uid)) rows)).
  { rewrite E. now left. }
  apply filter_In in Hin. destruct Hin as [Hin Hb].
  apply andb_true_iff in Hb. destruct Hb as [H1 H2].
  apply Z.eqb_eq in H1. apply Z.eqb_eq in H2. auto.
Qed.

Lemma Database_getTask_other_owner rows i uid :
  (forall task, In task rows -> id task = i -> userId task <> uid) ->
  Database.getTask rows i uid = None.
Proof.
  intros H. destruct (Database.getTask rows i uid) as [task|] eqn:E; auto.
  apply Database_getTask_owner in E. destruct E as [Hin [Hi Hu]].
  exfalso. exact (H task Hin Hi Hu).
Qed.

Lemma Database_deleteTask_then_getTask rows i uid :
  Database.getTask (snd (Database.deleteTask rows i uid)) i uid = None.
Proof.
  apply Database_getTask_other_owner. simpl.
  intros task Hin Hi Hu. apply filter_In in Hin. destruct Hin as [_ Hb].
  subst. now rewrite !Z.eqb_refl in Hb.
Qed.

End DatabaseFacts.

(* ================================================================== *)
(** * Scenarios: the theorems at concrete requests *)

Module Scenarios.
Import Schema Storage Routes Contract Samples.

(** Alice (user 1) creates a task; she can read it, Bob (user 2)
    cannot. *)
Lemma getTask_owner_only_witness :
  getTask (snd (createTask init 10 10 buy_milk 1)) 1 1
  = Some (fst (createTask init 10 10 buy_milk 1))
  /\ getTask (snd (createTask init 10 10 buy_milk 1)) 1 2 = None.
Proof.
  destruct (Repository.getTask_owner_only init 10 10 buy_milk 1)
    as [Howner [Hother _]].
  split; [exact Howner | apply Hother; lia].
Defined.

(** A delete request without a session. *)
Lemma requireAuth_rejects_witness :
  session_userId (mkRequest None "1" None) = None
  /\ handle ms_Date_parse DELETE_task 0 0 Samples.one_task
       (mkRequest None "1" None)
     = mkOutcome (mkResponse 401 (Message "Unauthorized"))
         Samples.one_task [].
Proof.
  split; [reflexivity | apply Gate.requireAuth_rejects; reflexivity].
Defined.

Lemma getTaskStats_spec_witness :
  ms_Date_parse EmptyString = None
  /\ getTaskStats ms_Date_parse overdue_store 1000 1 = Stats.mk 1 0 1 1
  /\ Stats.pending (getTaskStats ms_Date_parse overdue_store 1000 1)
     + Stats.completed (getTaskStats ms_Date_parse overdue_store 1000 1)
     = Stats.total (getTaskStats ms_Date_parse overdue_store 1000 1)
  /\ Stats.overdue (getTaskStats ms_Date_parse overdue_store 1000 1)
     <= Stats.pending (getTaskStats ms_Date_parse overdue_store 1000 1).
Proof.
  destruct (Repository.getTaskStats_spec ms_Date_parse overdue_store 1000 1
              eq_refl) as [_ [_ [_ [_ [Hsum [Hle _]]]]]].
  split; [reflexivity|]. split; [reflexivity|]. split; assumption.
Defined.

(** The task of [one_task] marked completed at 2000 ms. *)
Lemma updateTask_partial_witness :
  exists task',
    fst (updateTask Samples.one_task 2000 1 1 Samples.mark_completed)
    = Some task'
    /\ completed task' = true
    /\ title task' = "t"
    /\ updatedAt task' = 2000.
Proof.
  destruct (Repository.updateTask_partial Samples.one_task 2000 1 1
              Samples.mark_completed) as [Hfound _].
  destruct (Hfound _ eq_refl)
    as [task' [Heq [_ [Htitle [_ [_ [_ [Hdone [_ [_ [Hupd _]]]]]]]]]]].
  exists task'. rewrite Heq.
  split; [reflexivity|].
  split; [apply Hdone; reflexivity|].
  split; [apply Htitle; reflexivity | exact Hupd].
Defined.

Lemma create_owner_from_session_witness :
  exists task,
    payload (response (handle ms_Date_parse POST_task 0 0 init
                         spoofing_request)) = OneTask task
    /\ session_userId spoofing_request = Some (userId task)
    /\ userId task = 1.
Proof.
  destruct (Gate.create_owner_from_session ms_Date_parse 0 0 init
              spoofing_request) as [_ [Howner _]].
  eexists. split; [reflexivity|].
  split; [apply Howner; reflexivity | reflexivity].
Defined.

(** "Buy milk" without priority and completed, and an empty title. *)
Lemma create_validates_title_witness :
  1 <> 0
  /\ (exists task,
        response (handle ms_Date_parse POST_task 10 11 init
                    (authenticated 1 no_param (Some (body_of plain_milk))))
        = mkResponse 201 (OneTask task)
        /\ priority task = medium /\ completed task = false
        /\ createdAt task = 10 /\ updatedAt task = 11)
  /\ status (response (handle ms_Date_parse POST_task 10 11 init
                         (authenticated 1 no_param (Some (body_of untitled)))))
     = 400.
Proof.
  assert (Hu : 1 <> 0) by lia.
  destruct (Gate.create_validates_title ms_Date_parse 10 11 init 1 no_param
              Hu) as [_ Htyped].
  split; [exact Hu|]. split.
  - destruct (Htyped plain_milk)
      as [task [Hres [_ [_ [_ [_ [_ [Hp [Hc [Hc1 Hc2]]]]]]]]]].
    exists task. repeat split; assumption.
  - destruct (Htyped untitled) as [_ [Hs _]].
    exact Hs.
Defined.

(** [PATCH /api/tasks/1] with the payload [{ "completed": true }] on a
    task of priority "high": the priority stays, the schema's default
    "medium" is not applied to the omitted key. *)
Example patch_keeps_omitted_fields :
  let st := snd (createTask init 10 10 buy_milk 1) in
  let payload_completed :=
    mkBody None None None None (Some (JBool true)) None None in
  let out :=
    handle ms_Date_parse PATCH_task 20 20 st
      (authenticated 1 "1" (Some payload_completed)) in
  exists task,
    response out = mkResponse 200 (OneTask task)
    /\ completed task = true
    /\ priority task = high
    /\ title task = "Buy milk"
    /\ createdAt task = 10
    /\ updatedAt task = 20.
Proof.
  eexists. repeat split.
Qed.

(** User 1 deletes the task of [one_task]. *)
Lemma deleteTask_spec_witness :
  fst (deleteTask Samples.one_task 1 1) = true
  /\ getTask (snd (deleteTask Samples.one_task 1 1)) 1 1 = None.
Proof.
  destruct (Repository.deleteTask_spec Samples.one_task 1 1)
    as [_ [Hremoved _]].
  split; [reflexivity | apply Hremoved; reflexivity].
Defined.

(** [GET /api/tasks/abc] *)
Lemma unparsable_id_rejected_witness :
  Contract.takes_id GET_task = true
  /\ session_userId (authenticated 1 "abc" None) = Some 1
  /\ 1 <> 0
  /\ Contract.has_leading_integer "abc" = false
  /\ handle ms_Date_parse GET_task 0 0 Samples.one_task
       (authenticated 1 "abc" None)
     = mkOutcome (mkResponse 400 (Message "Invalid task ID"))
         Samples.one_task [].
Proof.
  assert (Hu : 1 <> 0) by lia.
  destruct (PathParam.unparsable_id_rejected ms_Date_parse GET_task 0 0
              Samples.one_task (authenticated 1 "abc" None) 1
              eq_refl eq_refl Hu eq_refl) as [Hout _].
  repeat split; assumption.
Defined.

End Scenarios.

(* ================================================================== *)
(** * Listing: order and stability *)

Module Listing.
Import Schema Storage Contract Notions StorageFacts.

Section Descending.
Context {A : Type} (key : A -> Z).

(** Sorting by a key, largest first, keeps the elements of one key in
    the order they had. *)
Lemma insert_same_key c x l :
  filter (fun a => key a =? c) (JS.insert (fun a b => key b - key a) x l)
  = filter (fun a => key a =? c) (x :: l).
Proof.
  induction l as [|y l IH]; [reflexivity|].
  cbn [JS.insert]. destruct (key y - key x <=? 0) eqn:E; [reflexivity|].
  apply Z.leb_gt in E. cbn [filter] in *. rewrite IH.
  destruct (key x =? c) eqn:Ex; [|reflexivity].
  apply Z.eqb_eq in Ex.
  destruct (key y =? c) eqn:Ey; [|reflexivity].
  apply Z.eqb_eq in Ey. lia.
Qed.

Lemma sort_same_key c l :
  filter (fun a => key a =? c) (JS.sort (fun a b => key b - key a) l)
  = filter (fun a => key a =? c) l.
Proof.
  induction l as [|x l IH]; [reflexivity|].
  cbn [JS.sort fold_right]. fold (JS.sort (fun a b => key b - key a) l).
  rewrite insert_same_key. cbn [filter]. now rewrite IH.
Qed.

Lemma sort_largest_first l :
  StronglySorted (fun a b => key b <= key a)
    (JS.sort (fun a b => key b - key a) l).
Proof.
  eapply SortFacts.StronglySorted_weaken.
  2: { apply (SortFacts.sort_sorted (fun a b => key b - key a)).
       - intros a b. lia.
       - intros a b c. lia. }
  simpl. intros a b. lia.
Qed.
End Descending.

(** X1.  [getTasks(userId)] returns the tasks of the store that
    [userId] owns, each once, the newest first; tasks created in the
    same millisecond keep the order of the map. *)
Theorem getTasks_listing st uid :
  Permutation (getTasks st uid) (owned st uid)
  /\ (forall task, In task (getTasks st uid) -> userId task = uid)
  /\ descending (getTasks st uid)
  /\ (forall c,
        created_at c (getTasks st uid) = created_at c (owned st uid)).
Proof.
  split; [apply getTasks_perm|].
  split; [intros task H; now apply getTasks_In in H|].
  split; [apply getTasks_descending|].
  intros c. unfold created_at, getTasks. apply (sort_same_key createdAt).
Qed.

End Listing.

(* ================================================================== *)
(** * What one request can do to the store *)

Module Effects.
Import Schema Storage Routes Contract Notions Views StorageFacts.

(** ** The map *)

Lemma delete_absent {V} k (m : JS.Map V) :
  ~ In k (JS.keys m) -> JS.delete k m = m.
Proof.
  induction m as [|[k' v'] m IH]; simpl; auto.
  intros H. destruct (k =? k') eqn:E; simpl.
  - apply Z.eqb_eq in E. exfalso. auto.
  - f_equal. apply IH. auto.
Qed.

Lemma delete_set_fresh {V} k (v : V) (m : JS.Map V) :
  ~ In k (JS.keys m) -> JS.delete k (JS.set k v m) = m.
Proof.
  intros H. rewrite (MapFacts.set_fresh _ _ _ H).
  unfold JS.delete. rewrite filter_app. simpl. rewrite Z.eqb_refl. simpl.
  rewrite app_nil_r. now apply delete_absent.
Qed.

Lemma filter_values_set {V} (p : V -> bool) k (v v0 : V) (m : JS.Map V) :
  JS.get k m = Some v0 -> p v0 = false -> p v = false ->
  filter p (JS.values (JS.set k v m)) = filter p (JS.values m).
Proof.
  intros Hget H0 Hv. induction m as [|[k' v'] m IH]; simpl in *.
  - discriminate.
  - destruct (k =? k') eqn:E; simpl.
    + inversion Hget; subst. now rewrite H0, Hv.
    + now rewrite IH.
Qed.

Lemma filter_values_delete {V} (p : V -> bool) k (m : JS.Map V) :
  (forall x, In (k, x) m -> p x = false) ->
  filter p (JS.values (JS.delete k m)) = filter p (JS.values m).
Proof.
  induction m as [|[k' v'] m IH]; simpl; auto.
  intros H. destruct (k =? k') eqn:E; simpl.
  - apply Z.eqb_eq in E. subst k'.
    rewrite (H v') by now left. apply IH. intros x Hx. apply H. now right.
  - rewrite IH; auto.
Qed.

Lemma next_id_fresh st :
  ids_consistent st -> ~ In (nextTaskId st) (JS.keys (tasks st)).
Proof.
  intros [_ Hall] Hin. unfold JS.keys in Hin. apply in_map_iff in Hin.
  destruct Hin as [e [He Hin]]. rewrite Forall_forall in Hall.
  destruct (Hall e Hin). lia.
Qed.

(** ** The three mutators and the other users *)

Lemma createTask_other st now1 now2 d u v :
  ids_consistent st -> v <> u ->
  same_view st (snd (createTask st now1 now2 d u)) v.
Proof.
  intros Hst Hne. pose proof (next_id_fresh st Hst) as Hfresh.
  split.
  - unfold owned. simpl. rewrite (MapFacts.set_fresh _ _ _ Hfresh).
    unfold JS.values. rewrite map_app, filter_app. simpl.
    destruct (u =? v) eqn:E; [apply Z.eqb_eq in E; congruence|].
    apply app_nil_r.
  - intros i. unfold getTask. simpl.
    destruct (Z.eq_dec (nextTaskId st) i) as [<- | Hi].
    + rewrite MapFacts.get_set_same. simpl.
      destruct (u =? v) eqn:E; [apply Z.eqb_eq in E; congruence|].
      apply MapFacts.get_None_keys in Hfresh. now rewrite Hfresh.
    + now rewrite MapFacts.get_set_other.
Qed.

Lemma updateTask_other st now i u upd v :
  v <> u -> same_view st (snd (updateTask st now i u upd)) v.
Proof.
  intros Hne. unfold updateTask.
  destruct (getTask st i u) as [task|] eqn:Hget; [|split; reflexivity].
  apply getTask_Some in Hget. destruct Hget as [Hget Hu].
  assert (Hno : (userId task =? v) = false).
  { apply Z.eqb_neq. congruence. }
  split.
  - unfold owned. simpl.
    apply (filter_values_set _ _ _ task); auto.
  - intros j. unfold getTask. simpl.
    destruct (Z.eq_dec i j) as [<- | Hj].
    + rewrite MapFacts.get_set_same, Hget. simpl. now rewrite Hno.
    + now rewrite MapFacts.get_set_other.
Qed.

Lemma deleteTask_other st i u v :
  ids_consistent st -> v <> u ->
  same_view st (snd (deleteTask st i u)) v.
Proof.
  intros [Hnd _] Hne. unfold deleteTask.
  destruct (getTask st i u) as [task|] eqn:Hget; [|split; reflexivity].
  apply getTask_Some in Hget. destruct Hget as [Hget Hu].
  assert (Hno : (userId task =? v) = false).
  { apply Z.eqb_neq. congruence. }
  split.
  - unfold owned. simpl. apply filter_values_delete.
    intros x Hx. apply (MapFacts.In_get _ _ _ Hnd) in Hx.
    rewrite Hget in Hx. inversion Hx; subst. exact Hno.
  - intros j. unfold getTask. simpl.
    destruct (Z.eq_dec i j) as [<- | Hj].
    + now rewrite MapFacts.get_delete_same, Hget, Hno.
    + now rewrite MapFacts.get_delete_other.
Qed.

(** ** The schemas *)

Lemma parsed_insert_title b d :
  insertTaskSchema_parse b = inr d -> title_in_range (ins_title d) = true.
Proof.
  unfold insertTaskSchema_parse. destruct b as [b|]; [|discriminate].
  unfold z_title.
  destruct (b_title b) as [[| | |s|]|]; try (simpl; discriminate).
  unfold title_in_range.
  destruct ((1 <=? length s)%nat && (length s <=? 200)%nat) eqn:E;
    [|simpl; discriminate].
  destruct (z_string_optional (b_description b));
    destruct (z_default z_priority medium (b_priority b));
    destruct (z_string_optional (b_dueDate b));
    destruct (z_default z_boolean false (b_completed b));
    try discriminate.
  intros H. inversion H. subst. exact E.
Qed.

Lemma parsed_update_title b upd s :
  updateTaskSchema_omit_id_parse b = inr upd ->
  upd_title upd = Some s -> title_in_range s = true.
Proof.
  unfold updateTaskSchema_omit_id_parse. destruct b as [b|]; [|discriminate].
  destruct (z_optional z_title (b_title b)) as [t|] eqn:Et;
    destruct (flatten (z_optional z_string_optional (b_description b)));
    destruct (z_optional (z_default z_priority medium) (b_priority b));
    destruct (flatten (z_optional z_string_optional (b_dueDate b)));
    destruct (z_optional (z_default z_boolean false) (b_completed b));
    try discriminate.
  intros H. inversion H. subst. simpl. intros ->.
  unfold z_optional, z_title in Et.
  destruct (b_title b) as [[| | |s'|]|]; try discriminate.
  unfold title_in_range.
  destruct ((1 <=? length s')%nat && (length s' <=? 200)%nat) eqn:E;
    [|discriminate].
  inversion Et. subst. exact E.
Qed.

(** ** One request: the store after it is the store before it, or the
    result of one mutator called for the session's user with validated
    data. *)
Lemma handle_effect Date_parse ep now1 now2 st req :
  let out := handle Date_parse ep now1 now2 st req in
  storage out = st
  \/ exists u,
       session_userId req = Some u /\ u <> 0
       /\ ((exists d,
              ep = POST_task
              /\ insertTaskSchema_parse (body req) = inr d
              /\ status (response out) = 201
              /\ storage out = snd (createTask st now1 now2 d u))
           \/ (exists i upd,
                 ep = PATCH_task
                 /\ updateTaskSchema_omit_id_parse (body req) = inr upd
                 /\ status (response out) = 200
                 /\ storage out = snd (updateTask st now1 i u upd))
           \/ (exists i,
                 ep = DELETE_task
                 /\ status (response out) = 204
                 /\ storage out = snd (deleteTask st i u))).
Proof.
  unfold handle, requireAuth.
  destruct (session_userId req) as [u|]; [|now left].
  unfold JS.truthy_number. destruct (u =? 0) eqn:Eu; [now left|].
  apply Z.eqb_neq in Eu. cbn [negb].
  destruct ep; cbn [route];
    unfold get_tasks, get_tasks_stats, get_task, post_task, patch_task,
      delete_task.
  - now left.
  - now left.
  - destruct (JS.parseInt (params_id req)); [|now left].
    destruct (getTask st z u); now left.
  - destruct (insertTaskSchema_parse (body req)) as [errors|d] eqn:Hp;
      [now left|].
    right. exists u. split; [reflexivity|]. split; [exact Eu|]. left.
    exists d. repeat split.
  - destruct (JS.parseInt (params_id req)) as [i|]; [|now left].
    destruct (updateTaskSchema_omit_id_parse (body req)) as [errors|upd]
      eqn:Hp; [now left|].
    destruct (updateTask st now1 i u upd) as [[task|] st'] eqn:Hup.
    + right. exists u. split; [reflexivity|]. split; [exact Eu|].
      right. left. exists i, upd. rewrite Hup. repeat split.
    + left. simpl. unfold updateTask in Hup.
      destruct (getTask st i u); inversion Hup. reflexivity.
  - destruct (JS.parseInt (params_id req)) as [i|]; [|now left].
    destruct (deleteTask st i u) as [[|] st'] eqn:Hdel.
    + right. exists u. split; [reflexivity|]. split; [exact Eu|].
      right. right. exists i. rewrite Hdel. repeat split.
    + left. simpl. unfold deleteTask in Hdel.
      destruct (getTask st i u) as [task|] eqn:Hget; inversion Hdel; auto.
      apply getTask_Some in Hget. destruct Hget as [Hget _].
      unfold JS.has in H0. rewrite Hget in H0. discriminate.
Qed.

End Effects.

(* ================================================================== *)
(** * Isolation and integrity of the task store *)

Module Integrity.
Import Schema Storage Routes Contract Notions Views StorageFacts Effects.

Lemma same_view_refl st v : same_view st st v.
Proof. split; reflexivity. Qed.

(** X2.  In a consistent store, a request that does not carry the
    session of user [v] changes nothing of what [v] sees: the tasks [v]
    owns, every lookup by [v], the list and the statistics of [v] are
    the same after the request as before it. *)
Theorem other_users_unaffected Date_parse ep now1 now2 st req v :
  ids_consistent st ->
  session_userId req <> Some v ->
  let out := handle Date_parse ep now1 now2 st req in
  same_view st (storage out) v
  /\ getTasks (storage out) v = getTasks st v
  /\ (forall now,
        getTaskStats Date_parse (storage out) now v
        = getTaskStats Date_parse st now v).
Proof.
  intros Hst Hsess out.
  assert (Hview : same_view st (storage out) v).
  { destruct (handle_effect Date_parse ep now1 now2 st req)
      as [Heq | [u [Hu [Hu0 Hcase]]]]; fold out in Heq || fold out in Hcase.
    - rewrite Heq. apply same_view_refl.
    - assert (Hne : v <> u) by congruence.
      destruct Hcase as [[d [_ [_ [_ ->]]]]
                        | [[i [upd [_ [_ [_ ->]]]]] | [i [_ [_ ->]]]]].
      + now apply createTask_other.
      + now apply updateTask_other.
      + now apply deleteTask_other. }
  assert (Hlist : getTasks (storage out) v = getTasks st v).
  { destruct Hview as [Hown _]. unfold getTasks. unfold owned in Hown.
    now rewrite Hown. }
  split; [exact Hview|]. split; [exact Hlist|].
  intros now. unfold getTaskStats. now rewrite Hlist.
Qed.

(** X3.  A request that is answered with a status of 400 or more, and
    every request to a reading endpoint, leaves the store as it was. *)
Theorem failed_or_read_request_keeps_store Date_parse ep now1 now2 st req :
  let out := handle Date_parse ep now1 now2 st req in
  400 <= status (response out) \/ is_read ep = true ->
  storage out = st.
Proof.
  intros out H.
  destruct (handle_effect Date_parse ep now1 now2 st req)
    as [Heq | [u [_ [_ Hcase]]]]; [exact Heq|].
  fold out in Hcase. exfalso.
  destruct Hcase as [[d [-> [_ [Hs _]]]]
                    | [[i [upd [-> [_ [Hs _]]]]] | [i [-> [Hs _]]]]];
    destruct H as [H | H]; try discriminate; lia.
Qed.

(** ** Validity of the stored tasks *)

Lemma handle_keeps_valid Date_parse ep now1 now2 st req :
  Forall (fun e => valid_task (snd e)) (tasks st) ->
  Forall (fun e => valid_task (snd e))
    (tasks (storage (handle Date_parse ep now1 now2 st req))).
Proof.
  intros Hall.
  destruct (handle_effect Date_parse ep now1 now2 st req)
    as [Heq | [u [_ [Hu0 Hcase]]]]; [now rewrite Heq|].
  destruct Hcase as [[d [_ [Hp [_ ->]]]]
                    | [[i [upd [_ [Hp [_ ->]]]]] | [i [_ [_ ->]]]]].
  - simpl. apply MapFacts.Forall_set; auto.
    split; simpl; [now apply (parsed_insert_title _ _ Hp) | exact Hu0].
  - unfold updateTask.
    destruct (getTask st i u) as [task|] eqn:Hget; [|exact Hall].
    simpl. apply MapFacts.Forall_set; auto.
    apply getTask_Some in Hget. destruct Hget as [Hget Hu].
    apply MapFacts.get_In in Hget. rewrite Forall_forall in Hall.
    destruct (Hall _ Hget) as [Ht Ho]. simpl in Ht, Ho.
    split; simpl; [|exact Ho].
    destruct (upd_title upd) as [s|] eqn:Es; [|exact Ht].
    now apply (parsed_update_title _ _ _ Hp).
  - unfold deleteTask.
    destruct (getTask st i u) as [task|]; [|exact Hall].
    simpl. rewrite Forall_forall in *. intros e He.
    apply filter_In in He. now apply Hall.
Qed.

Lemma run_keeps_valid Date_parse evs :
  forall st,
    Forall (fun e => valid_task (snd e)) (tasks st) ->
    Forall (fun e => valid_task (snd e)) (tasks (run Date_parse st evs)).
Proof.
  induction evs as [|ev evs IH]; intros st Hst; [exact Hst|].
  rewrite Ids.run_cons. apply IH. now apply handle_keeps_valid.
Qed.

(** X4.  Whatever requests have been served since the store was
    empty, every stored task has a title of 1 to 200 characters and an
    owner id other than 0. *)
Theorem stored_tasks_valid Date_parse evs :
  Forall (fun e => valid_task (snd e)) (tasks (run Date_parse init evs)).
Proof.
  apply run_keeps_valid. constructor.
Qed.

(** X5.  In a consistent store, a request that does not carry the
    session of a task's owner leaves the task as it is; and after any
    request, a task that is still stored under its key has the id, the
    owner and the creation time it had. *)
Theorem task_identity_kept Date_parse ep now1 now2 st req i t :
  ids_consistent st ->
  JS.get i (tasks st) = Some t ->
  let out := handle Date_parse ep now1 now2 st req in
  (session_userId req <> Some (userId t) ->
   JS.get i (tasks (storage out)) = Some t)
  /\ (forall t',
        JS.get i (tasks (storage out)) = Some t' ->
        id t' = id t /\ userId t' = userId t /\ createdAt t' = createdAt t).
Proof.
  intros Hst Hget out.
  assert (Hsame : forall m,
             JS.get i m = JS.get i (tasks st) ->
             (session_userId req <> Some (userId t) -> JS.get i m = Some t)
             /\ (forall t',
                   JS.get i m = Some t' ->
                   id t' = id t /\ userId t' = userId t
                   /\ createdAt t' = createdAt t)).
  { intros m Heq. rewrite Heq, Hget. split; auto.
    intros t' H. inversion H. auto. }
  destruct (handle_effect Date_parse ep now1 now2 st req)
    as [Heq | [u [Hu [_ Hcase]]]]; fold out in Heq || fold out in Hcase.
  - apply Hsame. now rewrite Heq.
  - destruct Hcase as [[d [_ [_ [_ ->]]]]
                      | [[j [upd [_ [Hp [_ ->]]]]] | [j [_ [_ ->]]]]].
    + apply Hsame. simpl. apply MapFacts.get_set_other.
      intros <-. apply next_id_fresh in Hst.
      apply MapFacts.get_Some_keys in Hget. contradiction.
    + unfold updateTask.
      destruct (getTask st j u) as [task|] eqn:Hj; [|now apply Hsame].
      simpl. destruct (Z.eq_dec j i) as [-> | Hne].
      * apply getTask_Some in Hj. destruct Hj as [Hj Hown].
        rewrite Hget in Hj. inversion Hj; subst task.
        rewrite MapFacts.get_set_same. split.
        -- intros H. exfalso. apply H. congruence.
        -- intros t' H. inversion H. simpl.
           now rewrite (Ids.parsed_update_has_no_id _ _ Hp).
      * apply Hsame. now apply MapFacts.get_set_other.
    + unfold deleteTask.
      destruct (getTask st j u) as [task|] eqn:Hj; [|now apply Hsame].
      simpl. destruct (Z.eq_dec j i) as [-> | Hne].
      * apply getTask_Some in Hj. destruct Hj as [Hj Hown].
        rewrite Hget in Hj. inversion Hj; subst task.
        rewrite MapFacts.get_delete_same. split.
        -- intros H. exfalso. apply H. congruence.
        -- discriminate.
      * apply Hsame. now apply MapFacts.get_delete_other.
Qed.

End Integrity.

(* ================================================================== *)
(** * Update and the life of a task *)

Module Lifecycle.
Import Schema Storage Routes Contract Notions StorageFacts Effects.

(** X6.  An update request of the owner whose payload has none of the
    five task keys (whatever it holds under [id] and [userId]) is
    answered 200 with the task as it was but for [updatedAt], which is
    the clock reading of the request; that task replaces the old one
    under the same key and the counter stays. *)
Theorem patch_without_fields Date_parse now1 now2 st req uid i b task :
  session_userId req = Some uid -> uid <> 0 ->
  JS.parseInt (params_id req) = Some i ->
  body req = Some b -> no_task_keys b ->
  getTask st i uid = Some task ->
  let out := handle Date_parse PATCH_task now1 now2 st req in
  response out = mkResponse 200 (OneTask (touched task now1))
  /\ tasks (storage out) = JS.set i (touched task now1) (tasks st)
  /\ nextTaskId (storage out) = nextTaskId st.
Proof.
  intros Hs Hu Hid Hb [H1 [H2 [H3 [H4 H5]]]] Hget out. subst out.
  rewrite (Gate.handle_authenticated _ _ _ _ _ _ uid) by auto.
  unfold route, patch_task. rewrite Hid, Hb.
  unfold updateTaskSchema_omit_id_parse. rewrite H1, H2, H3, H4, H5.
  cbn [z_optional flatten]. unfold updateTask. rewrite Hget.
  repeat split.
Qed.


(** X8.  In a consistent store, deleting a task right after creating
    it gives back the map of tasks as it was, with the counter one
    further (the id is not handed out again); the task can no longer
    be read, and a second delete returns false and changes nothing. *)
Theorem create_then_delete st now1 now2 d uid :
  ids_consistent st ->
  let task := fst (createTask st now1 now2 d uid) in
  let st1 := snd (createTask st now1 now2 d uid) in
  let st2 := {| tasks := tasks st; nextTaskId := nextTaskId st + 1 |} in
  deleteTask st1 (id task) uid = (true, st2)
  /\ getTask st2 (id task) uid = None
  /\ deleteTask st2 (id task) uid = (false, st2).
Proof.
  intros Hst. pose proof (next_id_fresh st Hst) as Hfresh. simpl.
  assert (Hnone : getTask
                    {| tasks := tasks st; nextTaskId := nextTaskId st + 1 |}
                    (nextTaskId st) uid = None).
  { apply getTask_None. left. simpl. now apply MapFacts.get_None_keys. }
  split; [|split; [exact Hnone|]].
  - unfold deleteTask, getTask, JS.has. simpl.
    rewrite MapFacts.get_set_same. simpl. rewrite Z.eqb_refl.
    now rewrite (delete_set_fresh _ _ _ Hfresh).
  - unfold deleteTask. now rewrite Hnone.
Qed.

Lemma len_app {A} (l l' : list A) : len (l ++ l') = len l + len l'.
Proof. unfold len. rewrite length_app. lia. Qed.

Lemma len_getTasks st uid : len (getTasks st uid) = len (owned st uid).
Proof. unfold len. f_equal. apply Permutation_length, getTasks_perm. Qed.

(** X9.  In a consistent store, creating a task for a user adds one
    to the user's [total], one to [completed] or to [pending] according
    to its [completed] flag, and one to [overdue] exactly when the new
    task is overdue at the moment of the query. *)
Theorem stats_after_create Date_parse st now1 now2 d uid now :
  ids_consistent st ->
  let task := fst (createTask st now1 now2 d uid) in
  let before := getTaskStats Date_parse st now uid in
  let after :=
    getTaskStats Date_parse (snd (createTask st now1 now2 d uid)) now uid in
  Stats.total after = Stats.total before + 1
  /\ Stats.completed after = Stats.completed before + count (completed task)
  /\ Stats.pending after
     = Stats.pending before + count (negb (completed task))
  /\ Stats.overdue after
     = Stats.overdue before + count (is_overdue Date_parse now task).
Proof.
  intros Hst task before after.
  pose proof (next_id_fresh st Hst) as Hfresh.
  assert (Hown : owned (snd (createTask st now1 now2 d uid)) uid
                 = (owned st uid ++ [task])%list).
  { unfold owned. simpl. rewrite (MapFacts.set_fresh _ _ _ Hfresh).
    unfold JS.values. rewrite map_app, filter_app. simpl.
    now rewrite Z.eqb_refl. }
  assert (Hf : forall f : Task -> bool,
             len (filter f (getTasks (snd (createTask st now1 now2 d uid)) uid))
             = len (filter f (getTasks st uid)) + count (f task)).
  { intros f. rewrite !Repository.len_filter_getTasks, Hown.
    rewrite filter_app, len_app. f_equal. simpl.
    destruct (f task); reflexivity. }
  subst before after. unfold getTaskStats. cbn [Stats.total Stats.completed
    Stats.pending Stats.overdue].
  split; [|split; [apply Hf | split; apply Hf]].
  rewrite !len_getTasks, Hown, len_app. reflexivity.
Qed.

End Lifecycle.

(* ================================================================== *)
(** * The user store and the authentication routes *)

Module Accounts.
Import Users UserNotions.

(** ** Lookup by name and by address *)

Lemma find_snoc {A} (p : A -> bool) (l : list A) (x : A) :
  find p (l ++ [x])
  = match find p l with
    | Some y => Some y
    | None => if p x then Some x else None
    end.
Proof.
  induction l as [|y l IH]; simpl; [reflexivity|].
  destruct (p y); auto.
Qed.


Lemma find_by_field (field : User -> string) (l : list User) (s : string) :
  find (fun user => (field user =? s)%string) l = None
  <-> ~ In s (map field l).
Proof.
  split.
  - intros H Hin. apply in_map_iff in Hin. destruct Hin as [u [Hu Hin]].
    pose proof (find_none _ _ H u Hin) as Hb. simpl in Hb.
    apply String.eqb_neq in Hb. contradiction.
  - intros H. destruct (find _ l) as [u|] eqn:E; auto.
    apply find_some in E. destruct E as [Hin Hb].
    apply String.eqb_eq in Hb. exfalso. apply H.
    apply in_map_iff. eauto.
Qed.

Lemma getUserByUsername_None st name :
  getUserByUsername st name = None <-> ~ In name (usernames st).
Proof. apply find_by_field. Qed.

Lemma getUserByEmail_None st mail :
  getUserByEmail st mail = None <-> ~ In mail (emails st).
Proof. apply find_by_field. Qed.

Lemma getUserByUsername_Some st name user :
  getUserByUsername st name = Some user ->
  In user (JS.values (users st)) /\ username user = name.
Proof.
  unfold getUserByUsername. intros H. apply find_some in H.
  destruct H as [Hin Hb]. apply String.eqb_eq in Hb. auto.
Qed.

Lemma init_users_consistent : users_consistent init.
Proof. split; [constructor|]. split; [simpl; lia | constructor]. Qed.

Lemma next_user_id_fresh st :
  users_consistent st -> ~ In (nextUserId st) (JS.keys (users st)).
Proof.
  intros [_ [_ Hall]] Hin. unfold JS.keys in Hin. apply in_map_iff in Hin.
  destruct Hin as [e [He Hin]]. rewrite Forall_forall in Hall.
  destruct (Hall e Hin). lia.
Qed.

Section WithBcrypt.
Variable bcrypt_hash : string -> string -> Z -> string.
Variable bcrypt_compare : string -> string -> bool.

Lemma createUser_values st salt now1 now2 d :
  users_consistent st ->
  JS.values (users (snd (createUser bcrypt_hash st salt now1 now2 d)))
  = (JS.values (users st)
       ++ [fst (createUser bcrypt_hash st salt now1 now2 d)])%list.
Proof.
  intros Hst. simpl.
  rewrite (MapFacts.set_fresh _ _ _ (next_user_id_fresh st Hst)).
  unfold JS.values. now rewrite map_app.
Qed.

Lemma createUser_consistent st salt now1 now2 d :
  users_consistent st ->
  users_consistent (snd (createUser bcrypt_hash st salt now1 now2 d)).
Proof.
  intros [Hnd [Hpos Hall]]. split; [|split]; simpl.
  - now apply MapFacts.NoDup_keys_set.
  - lia.
  - apply MapFacts.Forall_set; simpl; [|lia].
    eapply Forall_impl; [|exact Hall]. simpl. intros e [H1 H2]. lia.
Qed.

(** X10.  In a consistent user store, after [createUser] with a name
    that no user has yet, [validateUser] with that name and the
    password returns the new user, provided bcrypt accepts the
    password against its own hash; it returns none for every password
    bcrypt rejects against the stored hash.  The stored password is the
    hash, and the user is stored under the id it was given. *)
Theorem createUser_then_validateUser st salt now1 now2 d :
  users_consistent st ->
  ~ In (new_username d) (usernames st) ->
  bcrypt_compare (new_password d) (bcrypt_hash salt (new_password d) 10)
  = true ->
  let user := fst (createUser bcrypt_hash st salt now1 now2 d) in
  let st' := snd (createUser bcrypt_hash st salt now1 now2 d) in
  validateUser bcrypt_compare st' (new_username d) (new_password d)
  = Some user
  /\ getUser st' (id user) = Some user
  /\ password user = bcrypt_hash salt (new_password d) 10
  /\ (forall pass,
        bcrypt_compare pass (password user) = false ->
        validateUser bcrypt_compare st' (new_username d) pass = None).
Proof.
  intros Hst Hnew Hok user st'.
  assert (Hfind : getUserByUsername st' (new_username d) = Some user).
  { unfold getUserByUsername. subst st'.
    rewrite (createUser_values _ _ _ _ _ Hst), find_snoc.
    apply getUserByUsername_None in Hnew. unfold getUserByUsername in Hnew.
    rewrite Hnew. fold user. simpl. now rewrite String.eqb_refl. }
  split; [|split; [|split]].
  - unfold validateUser. rewrite Hfind. simpl. now rewrite Hok.
  - unfold getUser. simpl. apply MapFacts.get_set_same.
  - reflexivity.
  - intros pass Hbad. unfold validateUser. rewrite Hfind. now rewrite Hbad.
Qed.

(** X12.  In a consistent user store, creating another user does not
    change the outcome of [validateUser] for a name that a user already
    has, nor for any name other than the new one. *)
Theorem createUser_keeps_logins st salt now1 now2 d name pass :
  users_consistent st ->
  In name (usernames st) \/ name <> new_username d ->
  validateUser bcrypt_compare
    (snd (createUser bcrypt_hash st salt now1 now2 d)) name pass
  = validateUser bcrypt_compare st name pass.
Proof.
  intros Hst H. unfold validateUser, getUserByUsername.
  rewrite (createUser_values _ _ _ _ _ Hst), find_snoc.
  destruct (find (fun user => (username user =? name)%string)
              (JS.values (users st))) as [u|] eqn:E; [reflexivity|].
  destruct H as [H | H].
  - exfalso. revert H. now apply find_by_field.
  - simpl. destruct (new_username d =? name)%string eqn:En; [|reflexivity].
    apply String.eqb_eq in En. congruence.
Qed.

End WithBcrypt.

Lemma validateUser_Some (bcrypt_compare : string -> string -> bool)
  st name pass user :
  validateUser bcrypt_compare st name pass = Some user ->
  In user (JS.values (users st))
  /\ username user = name
  /\ bcrypt_compare pass (password user) = true.
Proof.
  unfold validateUser. intros H.
  destruct (getUserByUsername st name) as [u|] eqn:E; [|discriminate].
  destruct (bcrypt_compare pass (password u)) eqn:Ec; [|discriminate].
  inversion H; subst. apply getUserByUsername_Some in E. tauto.
Qed.

(** X11.  [validateUser] returns a user only if it is in the store,
    has the name asked for and bcrypt accepts the password against its
    stored hash; for a name no user has it returns none, whatever the
    password. *)
Theorem validateUser_sound (bcrypt_compare : string -> string -> bool)
  st name pass :
  (forall user,
      validateUser bcrypt_compare st name pass = Some user ->
      In user (JS.values (users st))
      /\ username user = name
      /\ bcrypt_compare pass (password user) = true)
  /\ (~ In name (usernames st) ->
      validateUser bcrypt_compare st name pass = None).
Proof.
  split.
  - intros user H. now apply validateUser_Some.
  - intros H. unfold validateUser.
    apply getUserByUsername_None in H. now rewrite H.
Qed.

End Accounts.

(* ================================================================== *)
(** * Signing up and logging in *)

Module Sessions.
Import Users UserNotions Accounts.

Section Signup.
Context {Body : Type}.
(** [signupUserSchema.parse] and [bcrypt.hash]. *)
Variable parse : Body -> list string + InsertUser.
Variable hash : string -> string -> Z -> string.

(** X13.  A signup whose validated name is the name of a stored user
    is answered 400 "Username already exists", one whose name is new
    but whose address a stored user has is answered 400 "Email already
    exists", and both leave the store unchanged; otherwise, in a
    consistent store, the answer is 201 with the id at the counter and
    the user is stored under that id with the given name and address. *)
Theorem signup_checks_duplicates st salt now1 now2 body d :
  parse body = inr d ->
  (In (new_username d) (usernames st) ->
   Auth.signup parse hash st salt now1 now2 body
   = (Auth.mkResponse 400 (Auth.Message "Username already exists"), st))
  /\ (~ In (new_username d) (usernames st) ->
      In (new_email d) (emails st) ->
      Auth.signup parse hash st salt now1 now2 body
      = (Auth.mkResponse 400 (Auth.Message "Email already exists"), st))
  /\ (~ In (new_username d) (usernames st) ->
      ~ In (new_email d) (emails st) ->
      users_consistent st ->
      exists user,
        Auth.signup parse hash st salt now1 now2 body
        = (Auth.mkResponse 201
             (Auth.UserCreated "User created successfully" (nextUserId st)),
           snd (createUser hash st salt now1 now2 d))
        /\ getUser (snd (Auth.signup parse hash st salt now1 now2 body))
             (nextUserId st)
           = Some user
        /\ username user = new_username d
        /\ email user = new_email d).
Proof.
  intros Hp. unfold Auth.signup. rewrite Hp. split; [|split].
  - intros Hin.
    destruct (getUserByUsername st (new_username d)) eqn:E; [reflexivity|].
    apply getUserByUsername_None in E. contradiction.
  - intros Hname Hin. apply getUserByUsername_None in Hname. rewrite Hname.
    destruct (getUserByEmail st (new_email d)) eqn:E; [reflexivity|].
    apply getUserByEmail_None in E. contradiction.
  - intros Hname Hmail Hst.
    apply getUserByUsername_None in Hname. rewrite Hname.
    apply getUserByEmail_None in Hmail. rewrite Hmail.
    eexists. split; [reflexivity|]. simpl. unfold getUser. simpl.
    split; [apply MapFacts.get_set_same|]. split; reflexivity.
Qed.

(** ** The invariant of the signup route *)



End Signup.

(** ** Login *)

Lemma route_never_401 Date_parse now1 now2 st req uid ep :
  Routes.status
    (Routes.response (Routes.route Date_parse now1 now2 st req uid ep))
  <> 401.
Proof.
  destruct ep; cbn [Routes.route];
    unfold Routes.get_tasks, Routes.get_tasks_stats, Routes.get_task,
      Routes.post_task, Routes.patch_task, Routes.delete_task.
  - discriminate.
  - discriminate.
  - destruct (JS.parseInt _); [|discriminate].
    destruct (Storage.getTask _ _ _); discriminate.
  - destruct (Schema.insertTaskSchema_parse _); [discriminate|].
    destruct (Storage.createTask _ _ _ _ _). discriminate.
  - destruct (JS.parseInt _); [|discriminate].
    destruct (Schema.updateTaskSchema_omit_id_parse _); [discriminate|].
    destruct (Storage.updateTask _ _ _ _ _) as [[t|] s]; discriminate.
  - destruct (JS.parseInt _); [|discriminate].
    destruct (Storage.deleteTask _ _ _) as [[|] s]; discriminate.
Qed.

Section Login.
Context {Body : Type}.
(** [loginUserSchema.parse] and [bcrypt.compare]. *)
Variable parse : Body -> list string + (string * string).
Variable compare : string -> string -> bool.

(** X15.  In a consistent user store, a login answered 200 leaves a
    session that carries the id of a stored user with the name given,
    an id that is not 0: with that session [GET /api/auth/user]
    answers 200 with that user, and no task endpoint answers 401. *)
Theorem login_session_passes_gate st session body name pass :
  users_consistent st ->
  parse body = inr (name, pass) ->
  let answer := fst (Auth.login parse compare st session body) in
  let session' := snd (Auth.login parse compare st session body) in
  Auth.status answer = 200 ->
  exists user,
    In user (JS.values (users st))
    /\ username user = name
    /\ session' = Routes.mkSession (Some (id user))
    /\ id user <> 0
    /\ (forall pid b,
          Auth.get_user st (Routes.mkRequest (Some session') pid b)
          = Auth.mkResponse 200
              (Auth.CurrentUser (id user) (username user) (email user)
                 (firstName user) (lastName user)))
    /\ (forall Date_parse ep now1 now2 tasks pid b,
          Routes.status
            (Routes.response
               (Routes.handle Date_parse ep now1 now2 tasks
                  (Routes.mkRequest (Some session') pid b)))
          <> 401).
Proof.
  intros Hst Hp answer session'. subst answer session'.
  unfold Auth.login. rewrite Hp.
  destruct (validateUser compare st name pass) as [user|] eqn:Hv;
    [|simpl; discriminate].
  intros _. exists user.
  destruct (validateUser_Some compare st name pass user Hv)
    as [Hin [Hname _]].
  assert (Hstored : JS.get (id user) (users st) = Some user /\ id user <> 0).
  { destruct Hst as [Hnd [_ Hall]]. unfold JS.values in Hin.
    apply in_map_iff in Hin. destruct Hin as [[k u] [Hu Hin]].
    simpl in Hu. subst u. rewrite Forall_forall in Hall.
    destruct (Hall _ Hin) as [Hid Hk]. simpl in Hid, Hk. subst k.
    split; [now apply MapFacts.In_get | lia]. }
  destruct Hstored as [Hget Hnz].
  split; [exact Hin|]. split; [exact Hname|]. split; [reflexivity|].
  split; [exact Hnz|]. cbn [snd]. split.
  - intros pid b. unfold Auth.get_user, Routes.session_userId. simpl.
    apply Z.eqb_neq in Hnz. rewrite Hnz. simpl.
    unfold getUser. now rewrite Hget.
  - intros Date_parse ep now1 now2 tasks pid b.
    rewrite (Gate.handle_authenticated _ _ _ _ _ _ (id user)) by auto.
    apply route_never_401.
Qed.

End Login.

End Sessions.

(* ================================================================== *)
(** * The task list of the client *)

Module ClientView.
Import Schema Storage Contract Notions Client.

Lemma sort_sorted_id {A} (cmp : A -> A -> Z) (l : list A) :
  StronglySorted (fun a b => cmp a b <= 0) l -> JS.sort cmp l = l.
Proof.
  induction 1 as [|x l Hl IH Hx]; [reflexivity|].
  cbn [JS.sort fold_right]. fold (JS.sort cmp l). rewrite IH.
  destruct l as [|y l]; [reflexivity|].
  cbn [JS.insert]. inversion Hx as [|? ? Hxy _]; subst.
  apply Z.leb_le in Hxy. now rewrite Hxy.
Qed.

Section View.
Variable localeCompare : string -> string -> Z.

(** X16.  Whatever the sort, the view shows every fetched task that
    matches the filter once and no other: under "all" it is a
    rearrangement of the fetched list, the "completed" and the
    "pending" views together are one too, and a task shown under
    "completed" is completed, one shown under "pending" is not.
    Before the list is fetched the view is empty. *)
Theorem view_shows_matching_tasks sort l :
  Permutation
    (sortedTasks localeCompare sort (filteredTasks filter_all (Some l))) l
  /\ Permutation
       (sortedTasks localeCompare sort (filteredTasks filter_completed (Some l))
        ++ sortedTasks localeCompare sort
             (filteredTasks filter_pending (Some l)))%list
       l
  /\ (forall task,
        In task (sortedTasks localeCompare sort
                   (filteredTasks filter_completed (Some l))) ->
        In task l /\ completed task = true)
  /\ (forall task,
        In task (sortedTasks localeCompare sort
                   (filteredTasks filter_pending (Some l))) ->
        In task l /\ completed task = false)
  /\ (forall filter,
        sortedTasks localeCompare sort (filteredTasks filter None) = []).
Proof.
  unfold sortedTasks. split; [|split; [|split; [|split]]].
  - rewrite SortFacts.sort_perm. simpl.
    induction l as [|x l IH]; simpl; auto.
  - rewrite !SortFacts.sort_perm. simpl.
    induction l as [|x l IH]; simpl; auto.
    destruct (completed x); simpl.
    + now constructor.
    + rewrite <- Permutation_middle. now constructor.
  - intros task H. apply (Permutation_in _ (SortFacts.sort_perm _ _)) in H.
    simpl in H. now apply filter_In in H.
  - intros task H. apply (Permutation_in _ (SortFacts.sort_perm _ _)) in H.
    simpl in H. apply filter_In in H. destruct H as [H1 H2].
    split; auto. now destruct (completed task).
  - intros filter. reflexivity.
Qed.

(** X17.  Sorted by priority, the view runs from "high" over "medium"
    to "low", and tasks of one priority keep the order in which they
    were fetched. *)
Theorem view_by_priority filtered :
  StronglySorted
    (fun a b => priorityOrder (priority b) <= priorityOrder (priority a))
    (sortedTasks localeCompare sort_priority filtered)
  /\ (forall p,
        filter (fun t => priorityOrder (priority t) =? priorityOrder p)
          (sortedTasks localeCompare sort_priority filtered)
        = filter (fun t => priorityOrder (priority t) =? priorityOrder p)
            filtered).
Proof.
  unfold sortedTasks. split.
  - apply (Listing.sort_largest_first (fun t => priorityOrder (priority t))).
  - intros p.
    apply (Listing.sort_same_key (fun t => priorityOrder (priority t))).
Qed.

(** X18.  With no filter and the default sort by date, the view shows
    the list of [MemStorage.getTasks] in the order the server returned
    it. *)
Theorem default_view_is_server_order st uid :
  sortedTasks localeCompare sort_date
    (filteredTasks filter_all (Some (getTasks st uid)))
  = getTasks st uid.
Proof.
  unfold sortedTasks, filteredTasks.
  assert (Hall : forall l : list Task, filter (fun _ => true) l = l).
  { induction l as [|x l IH]; simpl; congruence. }
  rewrite Hall. apply sort_sorted_id.
  eapply SortFacts.StronglySorted_weaken;
    [|apply (StorageFacts.getTasks_descending st uid)].
  simpl. intros a b. lia.
Qed.
End View.

(** X19.  The display name is never empty: it is the first and last
    name when both are set, the first name when only it is set,
    otherwise the user name, and "User" when that is empty or no user
    is loaded. *)
Theorem getDisplayName_not_empty user :
  getDisplayName user <> EmptyString
  /\ (forall u f l,
        user = Some u ->
        au_firstName u = Some f -> f <> EmptyString ->
        au_lastName u = Some l -> l <> EmptyString ->
        getDisplayName user = (f ++ " " ++ l)%string)
  /\ (forall u,
        user = Some u ->
        JS.truthy_string (au_firstName u) = false ->
        au_username u <> EmptyString ->
        getDisplayName user = au_username u).
Proof.
  assert (Htruthy : forall s v, JS.or_null s = Some v -> v <> EmptyString).
  { intros s v. unfold JS.or_null, JS.truthy_string.
    destruct s as [s|]; [|discriminate].
    destruct (s =? EmptyString)%string eqn:E; simpl; [discriminate|].
    intros H. inversion H; subst. now apply String.eqb_neq. }
  assert (Hkeep : forall v, v <> EmptyString -> JS.or_null (Some v) = Some v).
  { intros v Hv. unfold JS.or_null, JS.truthy_string.
    apply String.eqb_neq in Hv. now rewrite Hv. }
  split; [|split].
  - destruct user as [u|]; [|discriminate]. simpl.
    destruct (JS.or_null (au_firstName u)) as [f|] eqn:Ef.
    + apply Htruthy in Ef.
      destruct (JS.or_null (au_lastName u)); [|exact Ef].
      destruct f; [congruence | discriminate].
    + destruct (JS.or_null (Some (au_username u))) as [n|] eqn:En;
        [now apply Htruthy in En | discriminate].
  - intros u f l -> Hf Hfne Hl Hlne. simpl.
    now rewrite Hf, Hl, (Hkeep f Hfne), (Hkeep l Hlne).
  - intros u -> Hf Hn. simpl. unfold JS.or_null at 1. rewrite Hf.
    now rewrite (Hkeep _ Hn).
Qed.

End ClientView.

(* ================================================================== *)
(** * The database-backed repository: listing and delete *)

Module DatabaseProps.
Import Schema Contract.

(** X20.  [DatabaseStorage.getTasks(userId)] returns the rows that
    [userId] owns, each once, the oldest first. *)
Theorem Database_getTasks_listing rows uid :
  Permutation (Database.getTasks rows uid)
    (filter (fun task => userId task =? uid) rows)
  /\ (forall task, In task (Database.getTasks rows uid) -> userId task = uid)
  /\ ascending (Database.getTasks rows uid).
Proof.
  assert (Hperm : Permutation (Database.getTasks rows uid)
                    (filter (fun task => userId task =? uid) rows))
    by apply SortFacts.sort_perm.
  split; [exact Hperm|]. split.
  - intros task H. apply (Permutation_in _ Hperm) in H.
    apply filter_In in H. now apply Z.eqb_eq.
  - apply StorageFacts.Database_getTasks_ascending.
Qed.

(** X21.  [DatabaseStorage.deleteTask(id, userId)] returns true
    exactly when a row has that id and that owner; it removes those
    rows and no other, so a row of another user or with another id
    stays, and [getTask(id, userId)] returns none afterwards. *)
Theorem Database_deleteTask_spec rows i uid :
  let r := fst (Database.deleteTask rows i uid) in
  let rows' := snd (Database.deleteTask rows i uid) in
  (r = true <-> exists task, In task rows /\ id task = i /\ userId task = uid)
  /\ (forall task,
        In task rows' <-> In task rows /\ ~ (id task = i /\ userId task = uid))
  /\ Database.getTask rows' i uid = None.
Proof.
  simpl. split; [|split].
  - unfold Storage.len. rewrite Z.ltb_lt. split.
    + intros H.
      destruct (filter (fun task => (id task =? i) && (userId task =? uid))
                  rows) as [|task l] eqn:E; [simpl in H; lia|].
      assert (Hin : In task (filter
                       (fun task => (id task =? i) && (userId task =? uid))
                       rows)) by (rewrite E; now left).
      apply filter_In in Hin. destruct Hin as [Hin Hb].
      apply andb_true_iff in Hb. rewrite !Z.eqb_eq in Hb. eauto.
    + intros [task [Hin [Hi Hu]]].
      assert (Hf : In task (filter
                      (fun task => (id task =? i) && (userId task =? uid))
                      rows)).
      { apply filter_In. split; auto. subst. now rewrite !Z.eqb_refl. }
      destruct (filter _ rows); [contradiction | simpl; lia].
  - intros task. rewrite filter_In, negb_true_iff, andb_false_iff.
    rewrite !Z.eqb_neq. split.
    + intros [Hin H]. split; auto. intros [Hi Hu]. destruct H; contradiction.
    + intros [Hin H]. split; auto.
      destruct (Z.eq_dec (id task) i); [right | left]; auto.
  - apply (DatabaseFacts.Database_deleteTask_then_getTask rows i uid).
Qed.

End DatabaseProps.

(* ================================================================== *)
(** * What the responses carry *)

Module Responses.
Import Schema Storage Routes Contract Notions Carried StorageFacts.

(** X22.  No response of a task endpoint carries a task of another
    user: every task in the payload is owned by the user of the
    request's session (and a request without a session gets no task). *)
Theorem responses_carry_own_tasks Date_parse ep now1 now2 st req task :
  In task
    (payload_tasks
       (payload (response (handle Date_parse ep now1 now2 st req)))) ->
  session_userId req = Some (userId task).
Proof.
  unfold handle, requireAuth.
  destruct (session_userId req) as [u|]; [|simpl; tauto].
  destruct (JS.truthy_number (Some u)); [|simpl; tauto].
  destruct ep; cbn [route];
    unfold get_tasks, get_tasks_stats, get_task, post_task, patch_task,
      delete_task.
  - simpl. intros H. apply getTasks_In in H. destruct H as [_ ->].
    reflexivity.
  - simpl. tauto.
  - destruct (JS.parseInt (params_id req)) as [i|]; [|simpl; tauto].
    destruct (getTask st i u) as [t|] eqn:E; [|simpl; tauto].
    simpl. intros [<- | []]. apply getTask_Some in E.
    destruct E as [_ ->]. reflexivity.
  - destruct (insertTaskSchema_parse (body req)); [simpl; tauto|].
    simpl. intros [<- | []]. reflexivity.
  - destruct (JS.parseInt (params_id req)) as [i|]; [|simpl; tauto].
    destruct (updateTaskSchema_omit_id_parse (body req)); [simpl; tauto|].
    unfold updateTask.
    destruct (getTask st i u) as [t|] eqn:E; [|simpl; tauto].
    simpl. intros [<- | []]. simpl. apply getTask_Some in E.
    destruct E as [_ ->]. reflexivity.
  - destruct (JS.parseInt (params_id req)) as [i|]; [|simpl; tauto].
    destruct (deleteTask st i u) as [[|] st']; simpl; tauto.
Qed.

End Responses.

(* ================================================================== *)
(** * Update and the order of the list *)

Module UpdateOrder.
Import Schema Storage Routes Contract Notions Carried StorageFacts.

Lemma filter_map_commute {A} (p : A -> bool) (g : A -> A) (l : list A) :
  (forall x, In x l -> p (g x) = p x) ->
  filter p (map g l) = map g (filter p l).
Proof.
  induction l as [|x l IH]; intros H; [reflexivity|].
  simpl. rewrite (H x) by now left.
  rewrite IH by (intros y Hy; apply H; now right).
  now destruct (p x).
Qed.

Section ByKey.
Context {A : Type} (key : A -> Z) (g : A -> A).

Lemma insert_map_commute x l :
  key (g x) = key x ->
  (forall y, In y l -> key (g y) = key y) ->
  JS.insert (fun a b => key b - key a) (g x) (map g l)
  = map g (JS.insert (fun a b => key b - key a) x l).
Proof.
  intros Hx. induction l as [|y l IH]; intros H; [reflexivity|].
  cbn [map JS.insert]. rewrite Hx, (H y) by now left.
  destruct (key y - key x <=? 0); [reflexivity|].
  cbn [map]. f_equal. apply IH. intros z Hz. apply H. now right.
Qed.

Lemma sort_map_commute l :
  (forall y, In y l -> key (g y) = key y) ->
  JS.sort (fun a b => key b - key a) (map g l)
  = map g (JS.sort (fun a b => key b - key a) l).
Proof.
  induction l as [|x l IH]; intros H; [reflexivity|].
  cbn [map JS.sort fold_right].
  fold (JS.sort (fun a b => key b - key a) (map g l)).
  fold (JS.sort (fun a b => key b - key a) l).
  rewrite IH by (intros y Hy; apply H; now right).
  apply insert_map_commute; [apply H; now left|].
  intros y Hy. apply H. right.
  exact (Permutation_in _
           (SortFacts.sort_perm (fun a b => key b - key a) l) Hy).
Qed.
End ByKey.

Lemma replace_absent_id (m : JS.Map Task) i g :
  Forall (fun e => id (snd e) = fst e) m ->
  ~ In i (JS.keys m) ->
  map (replace_id i g) (JS.values m) = JS.values m.
Proof.
  induction 1 as [|e m Hx Hm IH]; intros Hi; [reflexivity|].
  destruct e as [k x].
  simpl in *. unfold replace_id at 1. rewrite Hx.
  destruct (k =? i) eqn:E.
  - apply Z.eqb_eq in E. exfalso. auto.
  - f_equal. apply IH. auto.
Qed.

Lemma values_set_replace_map (m : JS.Map Task) i t' :
  NoDup (JS.keys m) ->
  Forall (fun e => id (snd e) = fst e) m ->
  In i (JS.keys m) ->
  JS.values (JS.set i t' m)
  = map (replace_id i (fun _ => t')) (JS.values m).
Proof.
  intros Hnd Hall. revert Hnd.
  induction Hall as [|e m Hx Hm IH]; intros Hnd Hi; [contradiction|].
  destruct e as [k x].
  cbn [JS.keys map fst] in Hnd. apply NoDup_cons_iff in Hnd.
  destruct Hnd as [Hk Hnd'].
  simpl in Hx, Hi. cbn [JS.set].
  destruct (i =? k) eqn:E.
  - apply Z.eqb_eq in E. subst i. cbn [JS.values map snd].
    unfold replace_id at 1. rewrite Hx, Z.eqb_refl. f_equal.
    symmetry. now apply replace_absent_id.
  - cbn [JS.values map snd]. unfold replace_id at 1.
    rewrite Hx, Z.eqb_sym, E. f_equal. apply IH; auto.
    apply Z.eqb_neq in E. destruct Hi; congruence.
Qed.

Lemma values_set_replace st i t t' :
  ids_consistent st ->
  JS.get i (tasks st) = Some t ->
  JS.values (JS.set i t' (tasks st))
  = map (replace_id i (fun _ => t')) (JS.values (tasks st)).
Proof.
  intros [Hnd Hall] Hget. apply values_set_replace_map; auto.
  - eapply Forall_impl; [|exact Hall]. simpl. tauto.
  - eapply MapFacts.get_Some_keys; eauto.
Qed.

Lemma stored_with_id st i t x :
  ids_consistent st ->
  JS.get i (tasks st) = Some t ->
  In x (JS.values (tasks st)) -> id x = i -> x = t.
Proof.
  intros [Hnd Hall] Hget Hin Hid. unfold JS.values in Hin.
  apply in_map_iff in Hin. destruct Hin as [[k y] [Hy Hin]].
  simpl in Hy. subst y. rewrite Forall_forall in Hall.
  destruct (Hall _ Hin) as [Hk _]. simpl in Hk.
  assert (JS.get k (tasks st) = Some x) by now apply MapFacts.In_get.
  congruence.
Qed.

(** X23.  In a consistent store, an update that carries no [id] key
    leaves every user's list in the order it had: the list after the
    update is the list before it with the updated task in the place of
    the old one, so the ids come in the same order. *)
Theorem update_keeps_order st now i uid upd task v :
  ids_consistent st ->
  upd_id upd = None ->
  getTask st i uid = Some task ->
  let st' := snd (updateTask st now i uid upd) in
  getTasks st' v
  = map (replace_id i (fun _ => spread task upd now)) (getTasks st v)
  /\ map id (getTasks st' v) = map id (getTasks st v).
Proof.
  intros Hst Hid Hget st'.
  pose proof Hget as Hg. apply getTask_Some in Hg. destruct Hg as [Hg Hown].
  set (t' := spread task upd now).
  assert (Hrep : forall x,
             In x (JS.values (tasks st)) ->
             userId (replace_id i (fun _ => t') x) = userId x
             /\ createdAt (replace_id i (fun _ => t') x) = createdAt x
             /\ id (replace_id i (fun _ => t') x) = id x).
  { intros x Hx. unfold replace_id. destruct (id x =? i) eqn:E; auto.
    apply Z.eqb_eq in E.
    rewrite (stored_with_id st i task x Hst Hg Hx E).
    subst t'. simpl. rewrite Hid.
    split; [reflexivity|]. split; [reflexivity|].
    destruct (Ids.stored_get st i task Hst Hg). congruence. }
  assert (Hlist : getTasks st' v
                  = map (replace_id i (fun _ => t')) (getTasks st v)).
  { subst st'. unfold updateTask. rewrite Hget. unfold getTasks. simpl.
    fold t'. rewrite (values_set_replace st i task t' Hst Hg).
    rewrite filter_map_commute.
    - apply (sort_map_commute createdAt). intros y Hy.
      apply filter_In in Hy. now apply Hrep.
    - intros x Hx. destruct (Hrep x Hx) as [-> _]. reflexivity. }
  split; [exact Hlist|].
  rewrite Hlist, map_map. apply map_ext_in. intros x Hx.
  apply getTasks_In in Hx. destruct Hx as [Hx _]. now apply Hrep.
Qed.

End UpdateOrder.

(* ================================================================== *)
(** * Create, then read, over the routes *)

Module RoundTrip.
Import Schema Storage Routes Contract Notions StorageFacts.

(** X24.  After a create request of user [uid] with a typed input
    whose title has 1 to 200 characters, answered 201 with the task, a
    get request of [uid] whose id parameter parses to the id handed out
    is answered 200 with that same task, and the same get request of
    any other logged-in user is answered 404 "Task not found". *)
Theorem create_then_get
  Date_parse now1 now2 now3 now4 st uid d pid0 pid :
  uid <> 0 ->
  title_in_range (ins_title d) = true ->
  JS.parseInt pid = Some (nextTaskId st) ->
  let created :=
    handle Date_parse POST_task now1 now2 st
      (authenticated uid pid0 (Some (body_of d))) in
  exists task,
    response created = mkResponse 201 (OneTask task)
    /\ id task = nextTaskId st
    /\ response (handle Date_parse GET_task now3 now4 (storage created)
                   (authenticated uid pid None))
       = mkResponse 200 (OneTask task)
    /\ (forall other b,
          other <> 0 -> other <> uid ->
          response (handle Date_parse GET_task now3 now4 (storage created)
                      (authenticated other pid b))
          = mkResponse 404 (Message "Task not found")).
Proof.
  intros Hu Ht Hid created.
  set (d' := mkInsertTask (ins_title d) (ins_description d)
               (Some (match ins_priority d with
                      | Some p => p
                      | None => medium
                      end))
               (ins_dueDate d)
               (Some (match ins_completed d with
                      | Some c => c
                      | None => false
                      end))).
  assert (Hc : created
               = mkOutcome
                   (mkResponse 201
                      (OneTask (fst (createTask st now1 now2 d' uid))))
                   (snd (createTask st now1 now2 d' uid))
                   [call_createTask d' uid]).
  { subst created.
    rewrite (Gate.handle_authenticated _ _ _ _ _ _ uid) by auto.
    unfold route, post_task, authenticated. cbn [body].
    now rewrite (Gate.parse_body_of d Ht). }
  rewrite Hc. cbn [response storage].
  assert (Hget : forall u,
             getTask (snd (createTask st now1 now2 d' uid)) (nextTaskId st) u
             = if uid =? u
               then Some (fst (createTask st now1 now2 d' uid))
               else None).
  { intros u. unfold getTask. simpl. now rewrite MapFacts.get_set_same. }
  exists (fst (createTask st now1 now2 d' uid)).
  split; [reflexivity|]. split; [reflexivity|]. split.
  - rewrite (Gate.handle_authenticated _ _ _ _ _ _ uid) by auto.
    unfold route, get_task, authenticated. cbn [params_id].
    now rewrite Hid, Hget, Z.eqb_refl.
  - intros other b Ho Hne.
    rewrite (Gate.handle_authenticated _ _ _ _ _ _ other) by auto.
    unfold route, get_task, authenticated. cbn [params_id].
    rewrite Hid, Hget. apply Z.eqb_neq in Hne.
    rewrite Z.eqb_sym in Hne. now rewrite Hne.
Qed.

End RoundTrip.

(* ================================================================== *)
(** * Further scenarios *)

Module MoreScenarios.
Import Schema Storage Routes Contract Notions Views Samples MoreSamples.
Import UserNotions.

Lemma one_task_consistent : ids_consistent one_task.
Proof. apply Ids.createTask_consistent, Ids.init_consistent. Qed.

Lemma two_tasks_consistent : ids_consistent two_tasks.
Proof.
  apply Ids.createTask_consistent, Ids.createTask_consistent,
    Ids.init_consistent.
Qed.

Lemma with_alice_consistent : users_consistent with_alice.
Proof.
  apply Accounts.createUser_consistent, Accounts.init_users_consistent.
Qed.

Lemma getTasks_listing_witness :
  Permutation (getTasks two_tasks 1) (owned two_tasks 1)
  /\ descending (getTasks two_tasks 1)
  /\ map userId (getTasks two_tasks 1) = [1; 1].
Proof.
  destruct (Listing.getTasks_listing two_tasks 1) as [Hp [_ [Hd _]]].
  split; [exact Hp|]. split; [exact Hd | reflexivity].
Defined.

Lemma other_users_unaffected_witness :
  ids_consistent two_tasks
  /\ session_userId bob_deletes_1 <> Some 1
  /\ getTasks
       (storage (handle ms_Date_parse DELETE_task 0 0 two_tasks bob_deletes_1))
       1
     = getTasks two_tasks 1.
Proof.
  assert (Hs : session_userId bob_deletes_1 <> Some 1) by discriminate.
  destruct (Integrity.other_users_unaffected ms_Date_parse DELETE_task 0 0
              two_tasks bob_deletes_1 1 two_tasks_consistent Hs)
    as [_ [Hlist _]].
  split; [exact two_tasks_consistent|]. split; [exact Hs | exact Hlist].
Defined.

Lemma failed_or_read_request_keeps_store_witness :
  status (response (handle ms_Date_parse PATCH_task 0 0 one_task
                      alice_patches_empty_title)) = 400
  /\ storage (handle ms_Date_parse PATCH_task 0 0 one_task
                alice_patches_empty_title) = one_task.
Proof.
  split; [reflexivity|].
  apply Integrity.failed_or_read_request_keeps_store. left. simpl. lia.
Defined.

Lemma task_identity_kept_witness :
  ids_consistent one_task
  /\ JS.get 1 (tasks one_task) = Some the_task
  /\ session_userId bob_renames_1 <> Some (userId the_task)
  /\ JS.get 1
       (tasks (storage (handle ms_Date_parse PATCH_task 0 0 one_task
                          bob_renames_1)))
     = Some the_task.
Proof.
  assert (Hs : session_userId bob_renames_1 <> Some (userId the_task))
    by discriminate.
  destruct (Integrity.task_identity_kept ms_Date_parse PATCH_task 0 0
              one_task bob_renames_1 1 the_task one_task_consistent eq_refl)
    as [Hkeep _].
  split; [exact one_task_consistent|]. split; [reflexivity|].
  split; [exact Hs | exact (Hkeep Hs)].
Defined.

Lemma patch_without_fields_witness :
  no_task_keys only_id
  /\ response (handle ms_Date_parse PATCH_task 2000 0 one_task
                 alice_patches_nothing)
     = mkResponse 200 (OneTask (touched the_task 2000)).
Proof.
  assert (Hk : no_task_keys only_id) by (repeat split).
  assert (Hu : 1 <> 0) by lia.
  destruct (Lifecycle.patch_without_fields ms_Date_parse 2000 0 one_task
              alice_patches_nothing 1 1 only_id the_task
              eq_refl Hu eq_refl eq_refl Hk eq_refl) as [Hres _].
  split; [exact Hk | exact Hres].
Defined.


Lemma create_then_delete_witness :
  ids_consistent init
  /\ deleteTask (snd (createTask init 10 10 buy_milk 1)) 1 1
     = (true, {| tasks := []; nextTaskId := 2 |}).
Proof.
  destruct (Lifecycle.create_then_delete init 10 10 buy_milk 1
              Ids.init_consistent) as [Hdel _].
  split; [exact Ids.init_consistent | exact Hdel].
Defined.

Lemma stats_after_create_witness :
  ids_consistent one_task
  /\ Stats.total
       (getTaskStats ms_Date_parse (snd (createTask one_task 10 10 buy_milk 1))
          50 1)
     = Stats.total (getTaskStats ms_Date_parse one_task 50 1) + 1.
Proof.
  destruct (Lifecycle.stats_after_create ms_Date_parse one_task 10 10
              buy_milk 1 50 one_task_consistent) as [Htotal _].
  split; [exact one_task_consistent | exact Htotal].
Defined.

Lemma createUser_then_validateUser_witness :
  users_consistent Users.init
  /\ ~ In "alice" (usernames Users.init)
  /\ toy_compare "pw1" (toy_hash "salt" "pw1" 10) = true
  /\ Users.validateUser toy_compare with_alice "alice" "pw1"
     = Some (fst (Users.createUser toy_hash Users.init "salt" 5 5 alice)).
Proof.
  assert (Hnew : ~ In (Users.new_username alice) (usernames Users.init))
    by (simpl; tauto).
  destruct (Accounts.createUser_then_validateUser toy_hash toy_compare
              Users.init "salt" 5 5 alice Accounts.init_users_consistent
              Hnew eq_refl) as [Hok _].
  split; [exact Accounts.init_users_consistent|].
  split; [exact Hnew|]. split; [reflexivity | exact Hok].
Defined.

Lemma validateUser_sound_witness :
  ~ In "carol" (usernames with_alice)
  /\ Users.validateUser toy_compare with_alice "carol" "pw1" = None.
Proof.
  assert (Hno : ~ In "carol" (usernames with_alice)).
  { simpl. intros [H | []]. discriminate. }
  destruct (Accounts.validateUser_sound toy_compare with_alice "carol" "pw1")
    as [_ Hnone].
  split; [exact Hno | exact (Hnone Hno)].
Defined.

Lemma createUser_keeps_logins_witness :
  users_consistent with_alice
  /\ In "alice" (usernames with_alice)
  /\ Users.validateUser toy_compare
       (snd (Users.createUser toy_hash with_alice "pepper" 6 6 alice_again))
       "alice" "pw1"
     = Users.validateUser toy_compare with_alice "alice" "pw1".
Proof.
  assert (Hin : In "alice" (usernames with_alice)) by (simpl; auto).
  split; [exact with_alice_consistent|]. split; [exact Hin|].
  apply Accounts.createUser_keeps_logins;
    [exact with_alice_consistent | left; exact Hin].
Defined.

Lemma signup_checks_duplicates_witness :
  toy_signup_parse alice_again = inr alice_again
  /\ In (Users.new_username alice_again) (usernames with_alice)
  /\ Auth.signup toy_signup_parse toy_hash with_alice "pepper" 6 6 alice_again
     = (Auth.mkResponse 400 (Auth.Message "Username already exists"),
        with_alice).
Proof.
  assert (Hin : In (Users.new_username alice_again) (usernames with_alice))
    by (simpl; auto).
  destruct (Sessions.signup_checks_duplicates toy_signup_parse toy_hash
              with_alice "pepper" 6 6 alice_again alice_again eq_refl)
    as [Hdup _].
  split; [reflexivity|]. split; [exact Hin | exact (Hdup Hin)].
Defined.

Lemma login_session_passes_gate_witness :
  users_consistent with_alice
  /\ toy_login_parse ("alice", "pw1") = inr ("alice", "pw1")
  /\ Auth.status
       (fst (Auth.login toy_login_parse toy_compare with_alice
               (mkSession None) ("alice", "pw1"))) = 200
  /\ status
       (response
          (handle ms_Date_parse GET_tasks 0 0 init
             (mkRequest
                (Some (snd (Auth.login toy_login_parse toy_compare with_alice
                              (mkSession None) ("alice", "pw1"))))
                no_param None)))
     <> 401.
Proof.
  destruct (Sessions.login_session_passes_gate toy_login_parse toy_compare
              with_alice (mkSession None) ("alice", "pw1") "alice" "pw1"
              with_alice_consistent eq_refl eq_refl)
    as [user [_ [_ [_ [_ [_ Hgate]]]]]].
  split; [exact with_alice_consistent|]. split; [reflexivity|].
  split; [reflexivity|]. apply Hgate.
Defined.

Lemma view_shows_matching_tasks_witness :
  In first_task
    (Client.sortedTasks (fun _ _ => 0) Client.sort_date
       (Client.filteredTasks Client.filter_pending
          (Some (getTasks two_tasks 1))))
  /\ completed first_task = false.
Proof.
  destruct (ClientView.view_shows_matching_tasks (fun _ _ => 0)
              Client.sort_date (getTasks two_tasks 1))
    as [_ [_ [_ [Hpending _]]]].
  assert (Hin : In first_task
                  (Client.sortedTasks (fun _ _ => 0) Client.sort_date
                     (Client.filteredTasks Client.filter_pending
                        (Some (getTasks two_tasks 1)))))
    by (simpl; auto).
  split; [exact Hin | exact (proj2 (Hpending first_task Hin))].
Defined.

Lemma getDisplayName_not_empty_witness :
  Client.getDisplayName (Some someone) = "Ada Lovelace".
Proof.
  destruct (ClientView.getDisplayName_not_empty (Some someone))
    as [_ [Hfull _]].
  apply (Hfull someone "Ada" "Lovelace"); (reflexivity || discriminate).
Defined.

Lemma Database_getTasks_listing_witness :
  map id (Database.getTasks sample_rows 1) = [3; 1]
  /\ ascending (Database.getTasks sample_rows 1).
Proof.
  destruct (DatabaseProps.Database_getTasks_listing sample_rows 1)
    as [_ [_ Hasc]].
  split; [reflexivity | exact Hasc].
Defined.

Lemma Database_deleteTask_spec_witness :
  fst (Database.deleteTask sample_rows 2 1) = false
  /\ Database.getTask (snd (Database.deleteTask sample_rows 1 1)) 1 1 = None.
Proof.
  destruct (DatabaseProps.Database_deleteTask_spec sample_rows 1 1)
    as [_ [_ Hnone]].
  split; [reflexivity | exact Hnone].
Defined.

Lemma responses_carry_own_tasks_witness :
  exists task,
    In task
      (Carried.payload_tasks
         (payload (response (handle ms_Date_parse POST_task 10 10 init
                               alice_creates))))
    /\ session_userId alice_creates = Some (userId task).
Proof.
  eexists. split; [left; reflexivity|].
  apply (Responses.responses_carry_own_tasks ms_Date_parse POST_task 10 10
           init alice_creates).
  left. reflexivity.
Defined.

Lemma update_keeps_order_witness :
  ids_consistent two_tasks
  /\ getTask two_tasks 1 1 = Some first_task
  /\ map id (getTasks (snd (updateTask two_tasks 5000 1 1 mark_completed)) 1)
     = map id (getTasks two_tasks 1).
Proof.
  destruct (UpdateOrder.update_keeps_order two_tasks 5000 1 1 mark_completed
              first_task 1 two_tasks_consistent eq_refl eq_refl)
    as [_ Hids].
  split; [exact two_tasks_consistent|]. split; [reflexivity | exact Hids].
Defined.

Lemma create_then_get_witness :
  1 <> 0
  /\ title_in_range (ins_title buy_milk) = true
  /\ JS.parseInt "1" = Some (nextTaskId init)
  /\ exists task,
       response (handle ms_Date_parse GET_task 0 0
                   (storage (handle ms_Date_parse POST_task 10 10 init
                               (authenticated 1 no_param
                                  (Some (body_of buy_milk)))))
                   (authenticated 1 "1" None))
       = mkResponse 200 (OneTask task)
       /\ title task = "Buy milk".
Proof.
  assert (Hu : 1 <> 0) by lia.
  destruct (RoundTrip.create_then_get ms_Date_parse 10 10 0 0 init 1 buy_milk
              no_param "1" Hu eq_refl eq_refl)
    as [task [Hres [_ [Hget _]]]].
  split; [exact Hu|]. split; [reflexivity|]. split; [reflexivity|].
  exists task. split; [exact Hget|].
  inversion Hres. reflexivity.
Defined.

End MoreScenarios.
